(** * Loan calculator engine: amortization schedule

    A shallow embedding of the two engines of the repository:

    - [src/src/index.js], the class-based engine ([BaseContext],
      [SummaryItem], [ContextItem], [AmortizationItem] and
      [LoanCalculatorEngine] with its per-period loop, its totals pass and
      its interest-balance pass);
    - [src/index.js], the legacy engine ([LoanContext], [LoanSummaryItem]
      and [LoanCalculatorEngine.prototype.calculate]).

    JavaScript numbers are read in exact arithmetic: a number is a rational
    [Q], compared with [Qeq]; [!==], [<=] and [>] on numbers become
    [Qeq_bool], [Qle_bool] and a strict comparison built from [Qle_bool].
    Only the [period] handed to the [SummaryItem] constructor is kept as a
    full JavaScript value, because the constructor inspects its dynamic
    type. *)

From Stdlib Require Import String QArith Qround Qminmax Qpower Qfield ZArith Bool Lia Lqa List.
Import ListNotations.

Local Open Scope Q_scope.

(** ** JavaScript values and outcomes *)

Inductive JsNum : Type :=
| JsNaN
| JsInfinity
| JsNegInfinity
| JsFinite (q : Q).

Inductive JsValue : Type :=
| JsUndefined
| JsNull
| JsBoolean (b : bool)
| JsNumber (n : JsNum)
| JsString (s : string).

(** The period held by the loop counter: a finite integer-valued number. *)
Definition JsInt (z : Z) : JsValue := JsNumber (JsFinite (inject_Z z)).

(** What running a piece of code yields: a value, a thrown [Error], or the
    exhaustion of the fuel that bounds the [for] loop of the model. *)
Inductive outcome (A : Type) : Type :=
| Return (a : A)
| Throw (msg : string)
| OutOfFuel.

Arguments Return {A} a.
Arguments Throw {A} msg.
Arguments OutOfFuel {A}.

Definition bind {A B : Type} (m : outcome A) (k : A -> outcome B) : outcome B :=
  match m with
  | Return a => k a
  | Throw msg => Throw msg
  | OutOfFuel => OutOfFuel
  end.

Notation "x <- m ;; k" := (bind m (fun x => k))
  (at level 61, m at next level, right associativity).

Definition returns {A : Type} (m : outcome A) : Prop := exists a, m = Return a.

Definition throws {A : Type} (m : outcome A) : Prop := exists msg, m = Throw msg.

(** Strict comparison [a > b] on numbers. *)
Definition Qgt_bool (a b : Q) : bool := negb (Qle_bool a b).

(** [x || 0] on an optional numeric field: [undefined] (and [0]) give [0]. *)
Definition orZero (x : option Q) : Q :=
  match x with
  | Some q => q
  | None => 0
  end.

(** lodash's [_.isUndefined] and [_.isNaN]: the latter holds of the number
    [NaN] only, unlike the global [isNaN]. *)
Definition isUndefined (v : JsValue) : bool :=
  match v with
  | JsUndefined => true
  | _ => false
  end.

Definition isNaN (v : JsValue) : bool :=
  match v with
  | JsNumber JsNaN => true
  | _ => false
  end.

(** [_.last]: the last element, [undefined] on an empty array. *)
Definition last_opt {A : Type} (l : list A) : option A :=
  match rev l with
  | [] => None
  | x :: _ => Some x
  end.

(** ** The data model of [src/src/index.js] *)

Definition interestOnly : string := "IO".
Definition principalAndInterest : string := "PI".

Module BaseContext.
Record t : Type := mk {
  principal : Q;
  interestRate : Q;
  interestRateFrequency : Q;
  effInterestRate : Q;
  term : Q;
  termFrequency : Q;
  effTerm : Q;
  repayment : Q;
  repaymentType : string;
  repaymentFrequency : Q
}.
End BaseContext.

Module ContextItem.
Record t : Type := mk {
  period : JsValue;
  principal : Q;
  interestRate : Q;
  interestRateFrequency : Q;
  effInterestRate : Q;
  term : Q;
  termFrequency : Q;
  effTerm : Q;
  repayment : Q;
  repaymentType : string;
  repaymentFrequency : Q;
  fee : option Q;
  offset : option Q;
  lumpSum : option Q;
  effExtraRepayment : option Q
}.

Definition with_principal (v : Q) (c : t) : t :=
  mk (period c) v (interestRate c) (interestRateFrequency c)
     (effInterestRate c) (term c) (termFrequency c) (effTerm c)
     (repayment c) (repaymentType c) (repaymentFrequency c)
     (fee c) (offset c) (lumpSum c) (effExtraRepayment c).

Definition with_repayment (v : Q) (c : t) : t :=
  mk (period c) (principal c) (interestRate c) (interestRateFrequency c)
     (effInterestRate c) (term c) (termFrequency c) (effTerm c)
     v (repaymentType c) (repaymentFrequency c)
     (fee c) (offset c) (lumpSum c) (effExtraRepayment c).

Definition with_fee (v : option Q) (c : t) : t :=
  mk (period c) (principal c) (interestRate c) (interestRateFrequency c)
     (effInterestRate c) (term c) (termFrequency c) (effTerm c)
     (repayment c) (repaymentType c) (repaymentFrequency c)
     v (offset c) (lumpSum c) (effExtraRepayment c).
End ContextItem.

Module AmortizationItem.
Record t : Type := mk {
  period : JsValue;
  principalBalance : Q;
  interestBalance : Q;
  interestPaid : Q;
  principalPaid : Q;
  repayment : Q
}.

Definition with_principalBalance (v : Q) (a : t) : t :=
  mk (period a) v (interestBalance a) (interestPaid a) (principalPaid a)
     (repayment a).

Definition with_interestBalance (v : Q) (a : t) : t :=
  mk (period a) (principalBalance a) v (interestPaid a) (principalPaid a)
     (repayment a).
End AmortizationItem.

(** [class SummaryItem]: the constructor guard shared by both item classes.
    It yields the accepted period. *)
Definition SummaryItem (period : JsValue) : outcome JsValue :=
  if isUndefined period then Throw "SummaryItem: `period` is undefined."
  else if isNaN period then Throw "SummaryItem: `period` must be a number."
  else Return period.

(** [_.merge(this, context)] on a fresh item that holds [period]: the base
    context's own fields are copied; it has none of the optional ones. *)
Definition merge_context (period : JsValue) (context : BaseContext.t)
  : ContextItem.t :=
  ContextItem.mk period
    (BaseContext.principal context)
    (BaseContext.interestRate context)
    (BaseContext.interestRateFrequency context)
    (BaseContext.effInterestRate context)
    (BaseContext.term context)
    (BaseContext.termFrequency context)
    (BaseContext.effTerm context)
    (BaseContext.repayment context)
    (BaseContext.repaymentType context)
    (BaseContext.repaymentFrequency context)
    None None None None.

(** [new ContextItem(period, context)]: the guard, then the merge. *)
Definition new_ContextItem (period : JsValue) (context : BaseContext.t)
  : outcome ContextItem.t :=
  p <- SummaryItem period ;;
  Return (merge_context p context).

(** [new AmortizationItem(period)]. *)
Definition new_AmortizationItem (period : JsValue) : outcome AmortizationItem.t :=
  p <- SummaryItem period ;;
  Return (AmortizationItem.mk p 0 0 0 0 0).

(** ** Operators *)

(** Modelled from the spec: the operator classes (./operators/*.js) are not
    among the sources. An operator exposes [process(period, context)], whose
    side effects are limited to setting the optional fields [fee], [offset],
    [lumpSum], [effExtraRepayment] and to overwriting [effInterestRate]. The
    writes of one call are a patch computed from the period and from the
    context as earlier operators left it; a field the patch leaves out keeps
    its value. *)
Record OperatorPatch : Type := mkPatch {
  write_fee : option Q;
  write_offset : option Q;
  write_lumpSum : option Q;
  write_effExtraRepayment : option Q;
  write_effInterestRate : option Q
}.

Definition Operator : Type := Z -> ContextItem.t -> OperatorPatch.

Definition write_opt (w : option Q) (old : option Q) : option Q :=
  match w with
  | Some v => Some v
  | None => old
  end.

Definition apply_patch (p : OperatorPatch) (c : ContextItem.t) : ContextItem.t :=
  ContextItem.mk (ContextItem.period c) (ContextItem.principal c)
    (ContextItem.interestRate c) (ContextItem.interestRateFrequency c)
    (match write_effInterestRate p with
     | Some r => r
     | None => ContextItem.effInterestRate c
     end)
    (ContextItem.term c) (ContextItem.termFrequency c) (ContextItem.effTerm c)
    (ContextItem.repayment c) (ContextItem.repaymentType c)
    (ContextItem.repaymentFrequency c)
    (write_opt (write_fee p) (ContextItem.fee c))
    (write_opt (write_offset p) (ContextItem.offset c))
    (write_opt (write_lumpSum p) (ContextItem.lumpSum c))
    (write_opt (write_effExtraRepayment p) (ContextItem.effExtraRepayment c)).

Definition process (op : Operator) (period : Z) (c : ContextItem.t) : ContextItem.t :=
  apply_patch (op period c) c.

(** [_.forEach(operators, operator => operator.process(period, context))]. *)
Definition process_all (ops : list Operator) (period : Z) (c : ContextItem.t)
  : ContextItem.t :=
  fold_left (fun ctx op => process op period ctx) ops c.

(** ** The engine of [src/src/index.js] *)

(** The value of [this.totals]. The seedless [reduce] of [__calculateTotals]
    hands back the array's own first element when the array has a single
    element (the callback is never called), and an object literal
    [{repayment, interestPaid}] otherwise. The first case is a reference into
    [amortizationList], so that a later write to that item is seen through
    [totals]. *)
Inductive TotalsRef : Type :=
| SameAsItem (index : nat)
| OwnObject (repayment interestPaid : Q).

Record Engine : Type := mkEngine {
  isSavingsMode : bool;
  context : BaseContext.t;
  contextList : list ContextItem.t;
  amortizationList : list AmortizationItem.t;
  totals : option TotalsRef
}.

(** The object [calculate] returns. *)
Record CalcResult : Type := mkResult {
  res_totals : option TotalsRef;
  res_contextList : list ContextItem.t;
  res_amortizationList : list AmortizationItem.t
}.

(** Reading [ref.repayment] and [ref.interestPaid] through the store. *)
Definition ref_repayment (l : list AmortizationItem.t) (r : TotalsRef) : outcome Q :=
  match r with
  | OwnObject rep _ => Return rep
  | SameAsItem i =>
      match nth_error l i with
      | Some a => Return (AmortizationItem.repayment a)
      | None => Throw "TypeError: dangling reference"
      end
  end.

Definition ref_interestPaid (l : list AmortizationItem.t) (r : TotalsRef) : outcome Q :=
  match r with
  | OwnObject _ ip => Return ip
  | SameAsItem i =>
      match nth_error l i with
      | Some a => Return (AmortizationItem.interestPaid a)
      | None => Throw "TypeError: dangling reference"
      end
  end.

(** ** The legacy engine of [src/index.js] *)

Module LoanContext.
Record t : Type := mk {
  principal : Q;
  interestRate : Q;
  interestRateFrequency : Q;
  term : Q;
  termFrequency : Q;
  repaymentFrequency : Q
}.

(** A context as passed by a caller or carried by an operator: any subset
    of the fields. *)
Record options : Type := mkOptions {
  opt_principal : option Q;
  opt_interestRate : option Q;
  opt_interestRateFrequency : option Q;
  opt_term : option Q;
  opt_termFrequency : option Q;
  opt_repaymentFrequency : option Q
}.

Definition pick (o : option Q) (old : Q) : Q :=
  match o with
  | Some v => v
  | None => old
  end.

(** [_.merge(target, source)]. *)
Definition merge (target : t) (source : options) : t :=
  mk (pick (opt_principal source) (principal target))
     (pick (opt_interestRate source) (interestRate target))
     (pick (opt_interestRateFrequency source) (interestRateFrequency target))
     (pick (opt_term source) (term target))
     (pick (opt_termFrequency source) (termFrequency target))
     (pick (opt_repaymentFrequency source) (repaymentFrequency target)).

(** An object of the class read as a merge source. *)
Definition as_options (c : t) : options :=
  mkOptions (Some (principal c)) (Some (interestRate c))
    (Some (interestRateFrequency c)) (Some (term c))
    (Some (termFrequency c)) (Some (repaymentFrequency c)).

Definition getEffInterestRate (c : t) : Q :=
  interestRate c * interestRateFrequency c / repaymentFrequency c.

Definition getEffTerm (c : t) : Q :=
  term c / termFrequency c * repaymentFrequency c.
End LoanContext.

Module LoanSummaryItem.
Record t : Type := mk {
  period : Z;
  principalInitialBalance : Q;
  principalFinalBalance : Q;
  interestPaid : Q;
  principalPaid : Q;
  pmt : Q
}.
End LoanSummaryItem.

(** The value of the legacy [totals]: the lone summary item itself when the
    seedless [reduce] never calls its callback, else [{pmt, interestPaid}]. *)
Inductive LegacyTotals : Type :=
| TheSummaryItem (s : LoanSummaryItem.t)
| PmtAndInterest (pmt interestPaid : Q).

Definition legacy_totals_pmt (t : LegacyTotals) : Q :=
  match t with
  | TheSummaryItem s => LoanSummaryItem.pmt s
  | PmtAndInterest p _ => p
  end.

Definition legacy_totals_interestPaid (t : LegacyTotals) : Q :=
  match t with
  | TheSummaryItem s => LoanSummaryItem.interestPaid s
  | PmtAndInterest _ i => i
  end.

Record LegacyResult : Type := mkLegacyResult {
  summaryList : list LoanSummaryItem.t;
  legacy_totals : LegacyTotals
}.

Section LegacyEngine.

(** [CalculatorEngine.config().frequency], [CalculatorEngineMath.pmt] and
    the contexts of the operators [getOperatorsAt] selects belong to the
    financial-calculator-engine package. *)
Variable frequency_year frequency_month : Q.
Variable pmt : Q -> Q -> Q -> Q.
Variable getOperatorContextsAt : Z -> list LoanContext.options.

Definition new_LoanContext (o : LoanContext.options) : LoanContext.t :=
  LoanContext.merge
    (LoanContext.mk 0 0 frequency_year 0 frequency_year frequency_month) o.

Definition no_options : LoanContext.options :=
  LoanContext.mkOptions None None None None None None.

Definition __flattenContext (baseContext : LoanContext.t)
           (operatorsContextList : list LoanContext.options) : LoanContext.t :=
  fold_left LoanContext.merge
    (LoanContext.as_options baseContext :: operatorsContextList)
    (new_LoanContext no_options).

Definition getContextAt (baseContext : LoanContext.t) (period : Z) : LoanContext.t :=
  __flattenContext baseContext (getOperatorContextsAt period).

(** The loop of the legacy [calculate]; [previousSummaryItem] is the
    function-scoped variable of that name. *)
Fixpoint legacy_loop (fuel : nat) (baseContext : LoanContext.t)
         (numberOfPeriods : Q) (currentPeriod : Z)
         (previousSummaryItem : option LoanSummaryItem.t)
         (summaryList : list LoanSummaryItem.t)
  : outcome (list LoanSummaryItem.t) :=
  match fuel with
  | O => OutOfFuel
  | S fuel' =>
      if Qle_bool (inject_Z currentPeriod) numberOfPeriods then
        let previousSummaryItem :=
          if (1 <? currentPeriod)%Z then last_opt summaryList
          else previousSummaryItem in
        let previousPrincipalFinalBalance :=
          match previousSummaryItem with
          | Some s => LoanSummaryItem.principalFinalBalance s
          | None => LoanContext.principal baseContext
          end in
        let currentContext := getContextAt baseContext currentPeriod in
        let interestRate := LoanContext.getEffInterestRate currentContext in
        let numberOfPeriodsLeft := numberOfPeriods - inject_Z currentPeriod + 1 in
        let pmt_ := pmt previousPrincipalFinalBalance interestRate numberOfPeriodsLeft in
        let principalInitialBalance := previousPrincipalFinalBalance in
        let interestPaid := principalInitialBalance * interestRate in
        let principalPaid := pmt_ - interestPaid in
        let principalFinalBalance := principalInitialBalance - principalPaid in
        let summaryItem :=
          LoanSummaryItem.mk currentPeriod principalInitialBalance
            principalFinalBalance interestPaid principalPaid pmt_ in
        legacy_loop fuel' baseContext numberOfPeriods (currentPeriod + 1)
          previousSummaryItem (summaryList ++ [summaryItem])
      else Return summaryList
  end.

Definition legacy_reduce (l : list LoanSummaryItem.t) : outcome LegacyTotals :=
  match l with
  | [] => Throw "TypeError: Reduce of empty array with no initial value"
  | first :: rest =>
      Return (fold_left
                (fun previous current =>
                   PmtAndInterest
                     (legacy_totals_pmt previous + LoanSummaryItem.pmt current)
                     (legacy_totals_interestPaid previous
                      + LoanSummaryItem.interestPaid current))
                rest (TheSummaryItem first))
  end.

Definition legacy_calculate (baseContext : LoanContext.t) : outcome LegacyResult :=
  let numberOfPeriods := LoanContext.getEffTerm baseContext in
  l <- legacy_loop (S (Z.to_nat (Qfloor numberOfPeriods))) baseContext
         numberOfPeriods 1 None [] ;;
  t <- legacy_reduce l ;;
  Return (mkLegacyResult l t).

End LegacyEngine.

(** The opening balance of the legacy summary item at index [j] of [l]:
    the principal for the first, the final balance of the item before for
    the others. *)
Definition legacy_opening (baseContext : LoanContext.t)
  (l : list LoanSummaryItem.t) (j : nat) : Q :=
  match j with
  | O => LoanContext.principal baseContext
  | S j' =>
      match nth_error l j' with
      | Some p => LoanSummaryItem.principalFinalBalance p
      | None => LoanContext.principal baseContext
      end
  end.

(** A legacy summary item of period [period], opened at [opening], against
    the rate of the period's context and the payment asked of [pmt]. *)
Definition legacy_item_ok (pmt : Q -> Q -> Q -> Q) (numberOfPeriods : Q)
  (period : Z) (opening rate : Q) (s : LoanSummaryItem.t) : Prop :=
  LoanSummaryItem.period s = period
  /\ LoanSummaryItem.principalInitialBalance s = opening
  /\ LoanSummaryItem.pmt s
     = pmt opening rate (numberOfPeriods - inject_Z period + 1)
  /\ LoanSummaryItem.interestPaid s = opening * rate
  /\ LoanSummaryItem.principalPaid s
     = LoanSummaryItem.pmt s - LoanSummaryItem.interestPaid s
  /\ LoanSummaryItem.principalFinalBalance s
     = opening - LoanSummaryItem.principalPaid s.

(** The summary items of a list, each against its period's context. *)
Definition legacy_chain (frequency_year frequency_month : Q)
  (pmt : Q -> Q -> Q -> Q) (getOperatorContextsAt : Z -> list LoanContext.options)
  (baseContext : LoanContext.t) (l : list LoanSummaryItem.t) : Prop :=
  forall (j : nat) (s : LoanSummaryItem.t),
    nth_error l j = Some s ->
    legacy_item_ok pmt (LoanContext.getEffTerm baseContext) (Z.of_nat (S j))
      (legacy_opening baseContext l j)
      (LoanContext.getEffInterestRate
         (getContextAt frequency_year frequency_month getOperatorContextsAt
            baseContext (Z.of_nat (S j))))
      s.

(** ** Vocabulary of the specification *)

(** The period numbers [0 .. n-1] as the items hold them. *)
Definition periods (n : nat) : list JsValue :=
  map (fun i => JsInt (Z.of_nat i)) (seq 0 n).

(** The sum of a list of numbers. *)
Definition Qsum (l : list Q) : Q := fold_right Qplus 0 l.

(** The standard annuity payment: the level payment that amortizes [pv] over
    [nper] periods at the periodic rate [rate]. *)
Definition annuity (pv rate : Q) (nper : Z) : Q :=
  pv * rate / (1 - Qpower (1 + rate) (- nper)).

(** A [pmt] function of the formula library that computes the standard
    annuity payment at a positive rate and a whole number of periods. *)
Definition standard_pmt (pmt : Q -> Q -> Q -> Q) : Prop :=
  forall (pv rate nper : Q) (n : Z),
    0 < rate -> (1 <= n)%Z -> nper == inject_Z n ->
    pmt pv rate nper == annuity pv rate n.

(** One such function, total on all inputs. *)
Definition annuity_pmt (pv rate nper : Q) : Q := annuity pv rate (Qfloor nper).

(** The discount factor [(1 + rate) ^ (- m)] over [m] periods. *)
Definition discount (rate : Q) (m : nat) : Q := Qpower (1 + rate) (- Z.of_nat m).

(** The level payment of a loan of [pv] over [n] periods. *)
Definition level_payment (pv rate : Q) (n : nat) : Q := annuity pv rate (Z.of_nat n).

(** The balance left of [pv] after [k] level payments of [payment], each
    following one period of interest at [rate]. *)
Fixpoint balance_after (pv rate payment : Q) (k : nat) : Q :=
  match k with
  | O => pv
  | S k' => balance_after pv rate payment k' * (1 + rate) - payment
  end.

(** The schedule of a loan of [pv] over [n] periods at [rate]: the balance
    after [k] level payments. *)
Definition schedule_balance (pv rate : Q) (n k : nat) : Q :=
  balance_after pv rate (level_payment pv rate n) k.

(** What the entry at index [k] of the lists of engine [e] holds when the
    run follows the schedule of a loan of [pv] over [n] periods at [rate]. *)
Definition on_schedule (e : Engine) (pv rate : Q) (n k : nat)
  (c : ContextItem.t) (a : AmortizationItem.t) : Prop :=
  ContextItem.effInterestRate c = BaseContext.effInterestRate (context e)
  /\ AmortizationItem.principalBalance a == schedule_balance pv rate n k
  /\ ((1 <= k)%nat ->
      ContextItem.repayment c == level_payment pv rate n
      /\ AmortizationItem.repayment a == level_payment pv rate n
      /\ AmortizationItem.interestPaid a
         == schedule_balance pv rate n (k - 1) * rate
      /\ AmortizationItem.principalPaid a
         == level_payment pv rate n - schedule_balance pv rate n (k - 1) * rate).

(** The same for the summary item of period [k] of the legacy engine. *)
Definition legacy_on_schedule (pv rate : Q) (n k : nat) (s : LoanSummaryItem.t) : Prop :=
  LoanSummaryItem.period s = Z.of_nat k
  /\ LoanSummaryItem.pmt s == level_payment pv rate n
  /\ LoanSummaryItem.interestPaid s == schedule_balance pv rate n (k - 1) * rate
  /\ LoanSummaryItem.principalPaid s
     == level_payment pv rate n - schedule_balance pv rate n (k - 1) * rate
  /\ LoanSummaryItem.principalFinalBalance s == schedule_balance pv rate n k.

(** ** The constructor of [BaseContext] *)

(** The options a caller passes: any subset of the fields. *)
Module BaseContextOptions.
Record t : Type := mk {
  principal : option Q;
  interestRate : option Q;
  interestRateFrequency : option Q;
  effInterestRate : option Q;
  term : option Q;
  termFrequency : option Q;
  effTerm : option Q;
  repayment : option Q;
  repaymentType : option string;
  repaymentFrequency : option Q
}.
End BaseContextOptions.

Section BaseContextConstructor.

(** [config.frequency] and the two formulas of [CalculatorEngineMath] belong
    to the financial-calculator-engine package. *)
Variable frequency_year frequency_month : Q.
Variable math_effInterestRate math_effTerm : Q -> Q -> Q -> Q.

Definition BaseContext_defaults : BaseContext.t :=
  BaseContext.mk 0 0 frequency_year 0 0 frequency_year 0 0
    principalAndInterest frequency_month.

Definition pick_string (o : option string) (old : string) : string :=
  match o with
  | Some v => v
  | None => old
  end.

(** [_.merge(this, defaults, options)]. *)
Definition merge_options (defaults : BaseContext.t) (options : BaseContextOptions.t)
  : BaseContext.t :=
  BaseContext.mk
    (LoanContext.pick (BaseContextOptions.principal options)
       (BaseContext.principal defaults))
    (LoanContext.pick (BaseContextOptions.interestRate options)
       (BaseContext.interestRate defaults))
    (LoanContext.pick (BaseContextOptions.interestRateFrequency options)
       (BaseContext.interestRateFrequency defaults))
    (LoanContext.pick (BaseContextOptions.effInterestRate options)
       (BaseContext.effInterestRate defaults))
    (LoanContext.pick (BaseContextOptions.term options)
       (BaseContext.term defaults))
    (LoanContext.pick (BaseContextOptions.termFrequency options)
       (BaseContext.termFrequency defaults))
    (LoanContext.pick (BaseContextOptions.effTerm options)
       (BaseContext.effTerm defaults))
    (LoanContext.pick (BaseContextOptions.repayment options)
       (BaseContext.repayment defaults))
    (pick_string (BaseContextOptions.repaymentType options)
       (BaseContext.repaymentType defaults))
    (LoanContext.pick (BaseContextOptions.repaymentFrequency options)
       (BaseContext.repaymentFrequency defaults)).

Definition __normalizeValues (b : BaseContext.t) : BaseContext.t :=
  BaseContext.mk (BaseContext.principal b) (BaseContext.interestRate b)
    (BaseContext.interestRateFrequency b)
    (math_effInterestRate (BaseContext.interestRate b)
       (BaseContext.interestRateFrequency b) (BaseContext.repaymentFrequency b))
    (BaseContext.term b) (BaseContext.termFrequency b)
    (math_effTerm (BaseContext.term b) (BaseContext.termFrequency b)
       (BaseContext.repaymentFrequency b))
    (BaseContext.repayment b) (BaseContext.repaymentType b)
    (BaseContext.repaymentFrequency b).

(** [new BaseContext(options, config)]. *)
Definition new_BaseContext (options : BaseContextOptions.t) : BaseContext.t :=
  __normalizeValues (merge_options BaseContext_defaults options).

End BaseContextConstructor.

(** ** Sample inputs *)

(** No operator is registered. *)
Definition no_operators_at : Z -> list Operator := fun _ => [].

(** A lump sum of 95 paid in period 1. *)
Definition lump_sum_95 : Operator :=
  fun period _ =>
    mkPatch None None (if (period =? 1)%Z then Some 95 else None) None None.

Definition lump_sum_in_period_1 : Z -> list Operator := fun _ => [lump_sum_95].

(** 100 borrowed at 10% per period over two periods. *)
Definition sample_context (repayment : Q) (repaymentType : string) : BaseContext.t :=
  BaseContext.mk 100 (1 # 10) 1 (1 # 10) 2 1 2 repayment repaymentType 1.

Definition sample_loan : Engine :=
  mkEngine false (sample_context 0 principalAndInterest) [] [] None.

Definition sample_interest_only_loan : Engine :=
  mkEngine false (sample_context 0 interestOnly) [] [] None.

(** A savings plan: 100 deposited, then 50 per period. *)
Definition sample_savings : Engine :=
  mkEngine true (sample_context 50 principalAndInterest) [] [] None.

(** A loan whose term is zero. *)
Definition sample_zero_term : Engine :=
  mkEngine false
    (BaseContext.mk 100 (1 # 10) 1 (1 # 10) 0 1 0 0 principalAndInterest 1)
    [] [] None.

(** The legacy context of [sample_loan], with all frequencies equal to 1. *)
Definition sample_legacy_context : LoanContext.t :=
  LoanContext.mk 100 (1 # 10) 1 2 1 1.

(** 3 borrowed at 100% per period over two periods, for both engines. *)
Definition steep_loan : Engine :=
  mkEngine false (BaseContext.mk 3 1 1 1 2 1 2 0 principalAndInterest 1)
    [] [] None.

Definition steep_legacy_context : LoanContext.t := LoanContext.mk 3 1 1 2 1 1.

(** No operator of the legacy engine is active. *)
Definition no_legacy_operators_at : Z -> list LoanContext.options := fun _ => [].

(** "A finite number", in the words of the specification. *)
Definition isFiniteNumber (v : JsValue) : bool :=
  match v with
  | JsNumber (JsFinite _) => true
  | _ => false
  end.

(** A base context with another configured [repayment]. *)
Definition base_with_repayment (v : Q) (b : BaseContext.t) : BaseContext.t :=
  BaseContext.mk (BaseContext.principal b) (BaseContext.interestRate b)
    (BaseContext.interestRateFrequency b) (BaseContext.effInterestRate b)
    (BaseContext.term b) (BaseContext.termFrequency b) (BaseContext.effTerm b)
    v (BaseContext.repaymentType b) (BaseContext.repaymentFrequency b).

(** Two loan-mode engines in step, the second configured with the repayment
    [v]: they differ in the [repayment] of the base context and of the
    context of period 0 alone. *)
Definition same_but_repayment (v : Q) (s s' : Engine) : Prop :=
  isSavingsMode s = false
  /\ isSavingsMode s' = false
  /\ context s' = base_with_repayment v (context s)
  /\ amortizationList s' = amortizationList s
  /\ totals s' = totals s
  /\ exists (c0 : ContextItem.t) (rest : list ContextItem.t),
       contextList s = c0 :: rest
       /\ contextList s' = ContextItem.with_repayment v c0 :: rest.

(** A loan of zero principal. *)
Definition sample_zero_principal : Engine :=
  mkEngine false
    (BaseContext.mk 0 (1 # 10) 1 (1 # 10) 2 1 2 0 interestOnly 1)
    [] [] None.


Section LoanCalculatorEngine.

(** [CalculatorEngineMath.pmt] and the framework's [getOperatorsAt] belong
    to the financial-calculator-engine package. *)
Variable pmt : Q -> Q -> Q -> Q.
Variable getOperatorsAt : Z -> list Operator.

Definition __resetResults (e : Engine) : Engine :=
  mkEngine (isSavingsMode e) (context e) [] [] None.

Definition __calculateInitialPeriod (e : Engine) : outcome Engine :=
  ctx <- new_ContextItem (JsInt 0) (context e) ;;
  a0 <- new_AmortizationItem (JsInt 0) ;;
  let amortization :=
    AmortizationItem.with_principalBalance (ContextItem.principal ctx) a0 in
  Return (mkEngine (isSavingsMode e) (context e)
            (contextList e ++ [ctx])
            (amortizationList e ++ [amortization])
            (totals e)).

Definition __startCalculation (e : Engine) : outcome Engine :=
  __calculateInitialPeriod (__resetResults e).

Definition __calculateContextAt (period : Z) (e : Engine) : outcome ContextItem.t :=
  match last_opt (amortizationList e) with
  | None => Throw "TypeError: cannot read property of undefined"
  | Some prevAmortization =>
      c <- new_ContextItem (JsInt period) (context e) ;;
      let c := ContextItem.with_principal
                 (AmortizationItem.principalBalance prevAmortization) c in
      Return (process_all (getOperatorsAt period) period c)
  end.

Definition __calculateRepayment (period : Z) (c : ContextItem.t) : Q :=
  let principal := ContextItem.principal c in
  let effInterestRate := ContextItem.effInterestRate c in
  let effTermRemaining := ContextItem.effTerm c - inject_Z period + 1 in
  let isInterestOnly := String.eqb (ContextItem.repaymentType c) interestOnly in
  if isInterestOnly then principal * effInterestRate
  else pmt principal effInterestRate effTermRemaining.

(** [__calculateAmortizationAt] writes [context.repayment] and builds the
    period's amortization item: it yields the context as updated and the
    item. *)
Definition __calculateAmortizationAt (period : Z) (c : ContextItem.t) (e : Engine)
  : outcome (ContextItem.t * AmortizationItem.t) :=
  match last_opt (contextList e) with
  | None => Throw "TypeError: cannot read property of undefined"
  | Some prevContext =>
      let isInitialPeriod := Z.eqb period 1 in
      let hasChangedEffInterestRate :=
        negb (Qeq_bool (ContextItem.effInterestRate prevContext)
                       (ContextItem.effInterestRate c)) in
      let repayment := ContextItem.repayment prevContext in
      let repayment :=
        if negb (isSavingsMode e) && (isInitialPeriod || hasChangedEffInterestRate)
        then __calculateRepayment period c
        else repayment in
      let c := ContextItem.with_repayment repayment c in
      let repayment := repayment + orZero (ContextItem.effExtraRepayment c) in
      let repayment := repayment + orZero (ContextItem.lumpSum c) in
      let offset := orZero (ContextItem.offset c) in
      let consideredPrincipal := ContextItem.principal c - offset in
      let interestPaid :=
        Qmax (consideredPrincipal * ContextItem.effInterestRate c) 0 in
      let '(repayment, principalPaid, principalBalance) :=
        if isSavingsMode e
        then (repayment, 0, ContextItem.principal c + repayment + interestPaid)
        else
          let repayment :=
            if Qgt_bool repayment (ContextItem.principal c)
            then ContextItem.principal c + interestPaid
            else repayment in
          let principalPaid := repayment - interestPaid in
          (repayment, principalPaid, ContextItem.principal c - principalPaid) in
      let repayment := repayment + orZero (ContextItem.fee c) in
      a <- new_AmortizationItem (JsInt period) ;;
      Return (c, AmortizationItem.mk (AmortizationItem.period a)
                   principalBalance
                   (AmortizationItem.interestBalance a)
                   interestPaid principalPaid repayment)
  end.

(** One pass through the body of the [for] loop: the two pushes, and
    whether the [break] is taken. *)
Definition loop_body (period : Z) (e : Engine) : outcome (Engine * bool) :=
  c <- __calculateContextAt period e ;;
  ca <- __calculateAmortizationAt period c e ;;
  let '(c, amortization) := ca in
  let e' := mkEngine (isSavingsMode e) (context e)
              (contextList e ++ [c])
              (amortizationList e ++ [amortization])
              (totals e) in
  Return (e', negb (isSavingsMode e)
              && Qle_bool (AmortizationItem.principalBalance amortization) 0).

(** [for (var period = 1; period <= this.__context.effTerm; period++)],
    entered with the counter at [period]. *)
Fixpoint calculate_loop (fuel : nat) (period : Z) (e : Engine) : outcome Engine :=
  match fuel with
  | O => OutOfFuel
  | S fuel' =>
      if Qle_bool (inject_Z period) (BaseContext.effTerm (context e)) then
        eb <- loop_body period e ;;
        let '(e', break) := eb in
        if break then Return e'
        else calculate_loop fuel' (period + 1) e'
      else Return e
  end.

(** [this.amortizationList.reduce(function(previous, current) {...})]. *)
Definition __calculateTotals (e : Engine) : outcome Engine :=
  match amortizationList e with
  | [] => Throw "TypeError: Reduce of empty array with no initial value"
  | _ :: rest =>
      t <- fold_left
             (fun previous current =>
                prev <- previous ;;
                rep <- ref_repayment (amortizationList e) prev ;;
                ip <- ref_interestPaid (amortizationList e) prev ;;
                Return (OwnObject (rep + AmortizationItem.repayment current)
                                  (ip + AmortizationItem.interestPaid current)))
             rest (Return (SameAsItem 0)) ;;
      Return (mkEngine (isSavingsMode e) (context e) (contextList e)
                (amortizationList e) (Some t))
  end.

(** The [_.forEach] of [__calculateInterestBalance]: the running balance is
    threaded through the items, each of which gets its [interestBalance]
    written. *)
Fixpoint interestBalance_pass (savings : bool) (interestBalance : Q)
         (l : list AmortizationItem.t) : list AmortizationItem.t :=
  match l with
  | [] => []
  | amortization :: rest =>
      let interestBalance :=
        interestBalance -
        (if savings then AmortizationItem.interestPaid amortization * (-1)
         else AmortizationItem.interestPaid amortization) in
      AmortizationItem.with_interestBalance interestBalance amortization
        :: interestBalance_pass savings interestBalance rest
  end.

Definition __calculateInterestBalance (e : Engine) : outcome Engine :=
  interestBalance <-
    (if isSavingsMode e then Return 0
     else match totals e with
          | None => Throw "TypeError: cannot read property of null"
          | Some t => ref_interestPaid (amortizationList e) t
          end) ;;
  Return (mkEngine (isSavingsMode e) (context e) (contextList e)
            (interestBalance_pass (isSavingsMode e) interestBalance
               (amortizationList e))
            (totals e)).

Definition __endCalculation (e : Engine) : outcome Engine :=
  e <- __calculateTotals e ;;
  __calculateInterestBalance e.

(** The loop runs at most [floor effTerm] times; one more unit of fuel
    pays for the test that ends it. *)
Definition loop_fuel (e : Engine) : nat :=
  S (Z.to_nat (Qfloor (BaseContext.effTerm (context e)))).

Definition calculate_state (e : Engine) : outcome Engine :=
  e <- __startCalculation e ;;
  e <- calculate_loop (loop_fuel e) 1 e ;;
  __endCalculation e.

Definition calculate (e : Engine) : outcome CalcResult :=
  e <- calculate_state e ;;
  Return (mkResult (totals e) (contextList e) (amortizationList e)).

(** ** The loop as a relation between engine states *)


(** [push c a e]: the engine after [contextList.push(c)] and
    [amortizationList.push(a)]. *)
Definition push (c : ContextItem.t) (a : AmortizationItem.t) (e : Engine) : Engine :=
  mkEngine (isSavingsMode e) (context e) (contextList e ++ [c])
    (amortizationList e ++ [a]) (totals e).

(** The [break] test of the loop. *)
Definition paid_off (e : Engine) (a : AmortizationItem.t) : bool :=
  negb (isSavingsMode e) && Qle_bool (AmortizationItem.principalBalance a) 0.

(** [loop_run period e e']: entered with the counter at [period] in state
    [e], the loop is left in state [e']. *)
Inductive loop_run : Z -> Engine -> Engine -> Prop :=
| loop_term (period : Z) (e : Engine) :
    Qle_bool (inject_Z period) (BaseContext.effTerm (context e)) = false ->
    loop_run period e e
| loop_break (period : Z) (e : Engine) (c : ContextItem.t) (a : AmortizationItem.t) :
    Qle_bool (inject_Z period) (BaseContext.effTerm (context e)) = true ->
    loop_body period e = Return (push c a e, true) ->
    paid_off e a = true ->
    loop_run period e (push c a e)
| loop_next (period : Z) (e e' : Engine) (c : ContextItem.t) (a : AmortizationItem.t) :
    Qle_bool (inject_Z period) (BaseContext.effTerm (context e)) = true ->
    loop_body period e = Return (push c a e, false) ->
    paid_off e a = false ->
    loop_run (period + 1) (push c a e) e' ->
    loop_run period e e'.

(** The entry [(c, a)] of period [period] as the loop body computes it from
    the previous entry [(pc, pa)]: the body run on an engine that holds that
    entry alone. *)
Definition period_entry (savings : bool) (base : BaseContext.t) (period : Z)
  (pc : ContextItem.t) (pa : AmortizationItem.t)
  (c : ContextItem.t) (a : AmortizationItem.t) : Prop :=
  exists b,
    loop_body period (mkEngine savings base [pc] [pa] None)
    = Return (mkEngine savings base [pc; c] [pa; a] None, b).

(** Consecutive entries of the lists are linked by the loop body. *)
Definition linked (e : Engine) : Prop :=
  forall (i : nat) (pc c : ContextItem.t) (pa a : AmortizationItem.t),
    nth_error (contextList e) i = Some pc ->
    nth_error (amortizationList e) i = Some pa ->
    nth_error (contextList e) (S i) = Some c ->
    nth_error (amortizationList e) (S i) = Some a ->
    period_entry (isSavingsMode e) (context e) (Z.of_nat (S i)) pc pa c a.

(** What holds of the engine each time the loop test is reached, and when
    the loop is left: [open_upto] is the number of leading entries known not
    to have triggered the [break]. *)
Record run_inv (e0 e : Engine) (open_upto : nat) : Prop := mkInv {
  inv_mode : isSavingsMode e = isSavingsMode e0;
  inv_context : context e = context e0;
  inv_totals : totals e = totals e0;
  inv_length : length (contextList e) = length (amortizationList e);
  inv_nonempty : (0 < length (contextList e))%nat;
  inv_first_context : nth_error (contextList e) 0 = nth_error (contextList e0) 0;
  inv_first_amortization :
    nth_error (amortizationList e) 0 = nth_error (amortizationList e0) 0;
  inv_cperiods :
    map ContextItem.period (contextList e) = periods (length (contextList e));
  inv_aperiods :
    map AmortizationItem.period (amortizationList e)
    = periods (length (amortizationList e));
  inv_linked : linked e;
  inv_open :
    forall (i : nat) (a : AmortizationItem.t),
      (1 <= i < open_upto)%nat ->
      nth_error (amortizationList e) i = Some a ->
      paid_off e a = false;
  inv_tested :
    (2 <= length (contextList e))%nat ->
    Qle_bool (inject_Z (Z.of_nat (length (contextList e)) - 1))
      (BaseContext.effTerm (context e)) = true
}.

(** How the loop was left: by its [break], or by its test. *)
Definition left_by_break (e : Engine) : Prop :=
  exists a, last_opt (amortizationList e) = Some a
            /\ paid_off e a = true
            /\ (2 <= length (amortizationList e))%nat.

Definition left_by_test (e : Engine) : Prop :=
  Qle_bool (inject_Z (Z.of_nat (length (amortizationList e))))
    (BaseContext.effTerm (context e)) = false.

Definition initial_state (e : Engine) : Engine :=
  mkEngine (isSavingsMode e) (context e)
    [merge_context (JsInt 0) (context e)]
    [AmortizationItem.mk (JsInt 0) (BaseContext.principal (context e)) 0 0 0 0]
    None.

(** The two sums as the [reduce] accumulates them, from the left. *)
Definition reduce_sum (f : AmortizationItem.t -> Q) (l : list AmortizationItem.t) : Q :=
  match l with
  | [] => 0
  | a :: rest => fold_left (fun acc x => acc + f x) rest (f a)
  end.

Definition totals_of (l : list AmortizationItem.t) : TotalsRef :=
  match l with
  | _ :: _ :: _ =>
      OwnObject (reduce_sum AmortizationItem.repayment l)
                (reduce_sum AmortizationItem.interestPaid l)
  | _ => SameAsItem 0
  end.

(** The amount the pass subtracts for an item. *)
Definition interest_step (savings : bool) (a : AmortizationItem.t) : Q :=
  if savings then AmortizationItem.interestPaid a * (-1)
  else AmortizationItem.interestPaid a.

(** The interest balance the pass starts from. *)
Definition starting_interestBalance (savings : bool) (l : list AmortizationItem.t) : Q :=
  if savings then 0 else reduce_sum AmortizationItem.interestPaid l.

(** The state in which the loop of a run is left, and the result built
    from it. *)
Definition final_state (e e2 : Engine) : Prop :=
  (left_by_break e2
   /\ run_inv (initial_state e) e2 (pred (length (contextList e2))))
  \/ (left_by_test e2
      /\ run_inv (initial_state e) e2 (length (contextList e2))).

Definition result_of (e2 : Engine) : CalcResult :=
  mkResult (Some (totals_of (amortizationList e2)))
    (contextList e2)
    (interestBalance_pass (isSavingsMode e2)
       (starting_interestBalance (isSavingsMode e2) (amortizationList e2))
       (amortizationList e2)).

(** What a reader of [result.totals.repayment] and of
    [result.totals.interestPaid] gets. *)
Definition totals_repayment (r : CalcResult) : outcome Q :=
  match res_totals r with
  | Some t => ref_repayment (res_amortizationList r) t
  | None => Throw "TypeError: cannot read property of null"
  end.

Definition totals_interestPaid (r : CalcResult) : outcome Q :=
  match res_totals r with
  | Some t => ref_interestPaid (res_amortizationList r) t
  | None => Throw "TypeError: cannot read property of null"
  end.

(** The states a run of [calculate] started on [e0] goes through, with the
    value of the loop counter: after [__startCalculation], after each pass
    through the loop body, after the totals pass and after the
    interest-balance pass. *)
Inductive reachable (e0 : Engine) : Z -> Engine -> Prop :=
| reach_start (e1 : Engine) :
    __startCalculation e0 = Return e1 -> reachable e0 1 e1
| reach_body (period : Z) (e e' : Engine) (b : bool) :
    reachable e0 period e ->
    Qle_bool (inject_Z period) (BaseContext.effTerm (context e)) = true ->
    loop_body period e = Return (e', b) ->
    reachable e0 (period + 1) e'
| reach_totals (period : Z) (e e' : Engine) :
    reachable e0 period e ->
    __calculateTotals e = Return e' ->
    reachable e0 period e'
| reach_interestBalance (period : Z) (e e' : Engine) :
    reachable e0 period e ->
    __calculateInterestBalance e = Return e' ->
    reachable e0 period e'.

(** The alignment of the two lists. *)
Definition aligned (e : Engine) : Prop :=
  length (contextList e) = length (amortizationList e)
  /\ (exists c, nth_error (contextList e) 0 = Some c
                /\ ContextItem.period c = JsInt 0)
  /\ (exists a, nth_error (amortizationList e) 0 = Some a
                /\ AmortizationItem.period a = JsInt 0)
  /\ forall (i : nat) (c : ContextItem.t) (a : AmortizationItem.t),
       nth_error (contextList e) i = Some c ->
       nth_error (amortizationList e) i = Some a ->
       ContextItem.period c = AmortizationItem.period a.

(** ** Basic facts *)

Lemma last_opt_snoc {A : Type} (l : list A) (x : A) : last_opt (l ++ [x]) = Some x.
Proof. unfold last_opt. rewrite rev_app_distr. reflexivity. Qed.

Lemma last_opt_cons {A : Type} (x y : A) (l : list A) :
  last_opt (x :: y :: l) = last_opt (y :: l).
Proof.
unfold last_opt. simpl. destruct (rev l) as [|z r]; reflexivity.
Qed.

Lemma last_opt_nonempty {A : Type} (l : list A) :
  (0 < length l)%nat -> exists x, last_opt l = Some x.
Proof.
  intros H. destruct (rev l) as [|x r] eqn:E.
  - apply (f_equal (@length A)) in E. rewrite length_rev in E. simpl in E. lia.
  - exists x. unfold last_opt. now rewrite E.
Qed.

Lemma last_opt_nth {A : Type} (l : list A) (x : A) :
  last_opt l = Some x -> nth_error l (pred (length l)) = Some x.
Proof.
  destruct l as [|y l] using rev_ind.
  - discriminate.
  - rewrite last_opt_snoc. intros [= ->].
    rewrite length_app. simpl. rewrite Nat.add_1_r. simpl.
    rewrite nth_error_app2 by lia. now rewrite Nat.sub_diag.
Qed.

Lemma nth_error_lt {A : Type} (l : list A) (i : nat) (x : A) :
  nth_error l i = Some x -> (i < length l)%nat.
Proof. intros H. apply nth_error_Some. congruence. Qed.

Lemma SummaryItem_JsInt (z : Z) : SummaryItem (JsInt z) = Return (JsInt z).
Proof. reflexivity. Qed.

Lemma periods_S (n : nat) : periods (S n) = periods n ++ [JsInt (Z.of_nat n)].
Proof. unfold periods. rewrite seq_S, map_app. reflexivity. Qed.

Lemma periods_length (n : nat) : length (periods n) = n.
Proof. unfold periods. now rewrite length_map, length_seq. Qed.

Lemma periods_nth (n i : nat) :
  (i < n)%nat -> nth_error (periods n) i = Some (JsInt (Z.of_nat i)).
Proof.
  intros H. unfold periods. rewrite nth_error_map.
  rewrite nth_error_seq. apply Nat.ltb_lt in H. now rewrite H.
Qed.

Lemma Qle_bool_true (a b : Q) : Qle_bool a b = true <-> a <= b.
Proof. apply Qle_bool_iff. Qed.

Lemma Qle_bool_false (a b : Q) : Qle_bool a b = false <-> b < a.
Proof.
  split; intros H.
  - apply Qnot_le_lt. intros H'. apply Qle_bool_iff in H'. congruence.
  - destruct (Qle_bool a b) eqn:E; [|reflexivity].
    apply Qle_bool_iff in E. apply Qlt_not_le in H. contradiction.
Qed.

Lemma Qeq_bool_false (a b : Q) : Qeq_bool a b = false <-> ~ a == b.
Proof.
rewrite <- not_true_iff_false. now rewrite Qeq_bool_iff.
Qed.

Lemma Qgt_bool_true (a b : Q) : Qgt_bool a b = true <-> b < a.
Proof.
  unfold Qgt_bool. rewrite negb_true_iff. apply Qle_bool_false.
Qed.

Lemma Qgt_bool_false (a b : Q) : Qgt_bool a b = false <-> a <= b.
Proof.
  unfold Qgt_bool. rewrite negb_false_iff. apply Qle_bool_true.
Qed.

(** The loop test [period <= effTerm] against the floor of [effTerm]. *)
Lemma loop_test_floor (period : Z) (effTerm : Q) :
  Qle_bool (inject_Z period) effTerm = true <-> (period <= Qfloor effTerm)%Z.
Proof.
  rewrite Qle_bool_true. split; intros H.
  - apply Qfloor_resp_le in H. now rewrite Qfloor_Z in H.
  - apply Qle_trans with (inject_Z (Qfloor effTerm)).
    + now rewrite <- Zle_Qle.
    + apply Qfloor_le.
Qed.

(** ** Facts about the engine *)

Lemma loop_body_shape (period : Z) (e e' : Engine) (b : bool) :
  loop_body period e = Return (e', b) ->
  exists c a, e' = push c a e /\ b = paid_off e a.
Proof.
  unfold loop_body, bind. intros H.
  destruct (__calculateContextAt period e) as [c0| |]; try discriminate.
  destruct (__calculateAmortizationAt period c0 e) as [[c a]| |]; try discriminate.
  injection H as <- <-. now exists c, a.
Qed.

Lemma loop_body_returns (period : Z) (e : Engine) :
  (0 < length (contextList e))%nat ->
  (0 < length (amortizationList e))%nat ->
  exists c a, loop_body period e = Return (push c a e, paid_off e a).
Proof.
  intros Hc Ha.
  destruct (last_opt_nonempty _ Hc) as [pc Epc].
  destruct (last_opt_nonempty _ Ha) as [pa Epa].
  unfold loop_body, __calculateContextAt, __calculateAmortizationAt.
  rewrite Epa, Epc. cbn [new_ContextItem new_AmortizationItem bind SummaryItem
    JsInt isUndefined isNaN].
  match goal with
| |- context [if isSavingsMode e then (?x, ?y, ?z) else ?B] =>
    destruct (if isSavingsMode e then (x, y, z) else B) as [[r pp] pb]
end.
  eexists _, _. reflexivity.
Qed.

Lemma calculate_loop_run (fuel : nat) :
  forall (period : Z) (e e' : Engine),
    calculate_loop fuel period e = Return e' -> loop_run period e e'.
Proof.
  induction fuel as [|fuel IH]; intros period e e' H; [discriminate|].
  simpl in H.
  destruct (Qle_bool (inject_Z period) (BaseContext.effTerm (context e))) eqn:Et.
  - unfold bind in H.
    destruct (loop_body period e) as [[e1 b]| |] eqn:Eb; try discriminate.
    destruct (loop_body_shape _ _ _ _ Eb) as (c & a & -> & ->).
    destruct (paid_off e a) eqn:Ep.
    + injection H as <-. now apply loop_break.
    + eapply loop_next; eauto.
  - injection H as <-. now apply loop_term.
Qed.

(** Enough fuel: the loop returns. *)
Lemma calculate_loop_returns (fuel : nat) :
  forall (period : Z) (e : Engine),
    (0 < length (contextList e))%nat ->
    (0 < length (amortizationList e))%nat ->
    (Z.to_nat (Qfloor (BaseContext.effTerm (context e)) - period + 1) < fuel)%nat ->
    returns (calculate_loop fuel period e).
Proof.
  induction fuel as [|fuel IH]; intros period e Hc Ha Hf; [lia|].
  simpl.
  destruct (Qle_bool (inject_Z period) (BaseContext.effTerm (context e))) eqn:Et.
  - apply loop_test_floor in Et.
    destruct (loop_body_returns period e Hc Ha) as (c & a & ->).
    cbn [bind]. destruct (paid_off e a).
    + now eexists.
    + apply IH; cbn [push contextList amortizationList context].
      * rewrite length_app. simpl. lia.
      * rewrite length_app. simpl. lia.
      * lia.
  - now eexists.
Qed.

Lemma process_all_period (ops : list Operator) (period : Z) (c : ContextItem.t) :
  ContextItem.period (process_all ops period c) = ContextItem.period c.
Proof.
unfold process_all. revert c.
induction ops as [|op ops IH]; intros c; simpl; [reflexivity|].
now rewrite IH.
Qed.

Lemma process_all_principal (ops : list Operator) (period : Z) (c : ContextItem.t) :
  ContextItem.principal (process_all ops period c) = ContextItem.principal c.
Proof.
unfold process_all. revert c.
induction ops as [|op ops IH]; intros c; simpl; [reflexivity|].
now rewrite IH.
Qed.

Lemma loop_body_entry (period : Z) (e : Engine)
  (pc c : ContextItem.t) (pa a : AmortizationItem.t) (b : bool) :
  last_opt (contextList e) = Some pc ->
  last_opt (amortizationList e) = Some pa ->
  loop_body period e = Return (push c a e, b) ->
  period_entry (isSavingsMode e) (context e) period pc pa c a
  /\ ContextItem.period c = JsInt period
  /\ AmortizationItem.period a = JsInt period.
Proof.
intros Epc Epa. unfold period_entry.
unfold loop_body, __calculateContextAt, __calculateAmortizationAt.
rewrite Epa, Epc.
cbn [new_ContextItem new_AmortizationItem bind SummaryItem JsInt isUndefined
  isNaN last_opt rev app amortizationList contextList isSavingsMode context
  totals].
match goal with
| |- context [if isSavingsMode e then (?x, ?y, ?z) else ?B] =>
    destruct (if isSavingsMode e then (x, y, z) else B) as [[r pp] pb]
end.
unfold push. intros H. injection H as Hc Ha Hb.
apply app_inj_tail in Hc as [_ <-]. apply app_inj_tail in Ha as [_ <-].
split; [|split].
- eexists. reflexivity.
- cbn [ContextItem.with_repayment ContextItem.period].
  rewrite process_all_period. reflexivity.
- reflexivity.
Qed.

Lemma run_inv_push (e0 e : Engine) (c : ContextItem.t) (a : AmortizationItem.t)
  (b : bool) :
  run_inv e0 e (length (contextList e)) ->
  Qle_bool (inject_Z (Z.of_nat (length (contextList e))))
    (BaseContext.effTerm (context e)) = true ->
  loop_body (Z.of_nat (length (contextList e))) e
  = Return (push c a e, b) ->
  run_inv e0 (push c a e) (length (contextList e)).
Proof.
intros [Hm Hx Ht Hl Hn Hfc Hfa Hcp Hap Hlk Hop Hts] Htest Hb.
destruct (last_opt_nonempty _ Hn) as [pc Epc].
assert (Hn' : (0 < length (amortizationList e))%nat) by lia.
destruct (last_opt_nonempty _ Hn') as [pa Epa].
destruct (loop_body_entry _ _ _ _ _ _ _ Epc Epa Hb) as (He & Hpc & Hpa).
constructor; cbn [push isSavingsMode context totals contextList amortizationList];
  try assumption.
- rewrite !length_app. simpl. lia.
- rewrite length_app. simpl. lia.
- rewrite nth_error_app1 by lia. exact Hfc.
- rewrite nth_error_app1 by lia. exact Hfa.
- rewrite map_app, length_app, Hcp. simpl. rewrite Nat.add_1_r, periods_S.
  now rewrite Hpc.
- rewrite map_app, length_app, Hap. simpl. rewrite Nat.add_1_r, periods_S.
  now rewrite Hpa, Hl.
- intros i qc qc' qa qa' H1 H2 H3 H4.
  cbn [push isSavingsMode context totals contextList amortizationList] in *.
  assert (Hi : (S i < length (contextList e) + 1)%nat).
  { apply nth_error_lt in H3. rewrite length_app in H3. simpl in H3. lia. }
  destruct (Nat.eq_dec (S i) (length (contextList e))) as [E|NE].
  + apply last_opt_nth in Epc, Epa.
    rewrite nth_error_app1 in H1 by lia. rewrite nth_error_app1 in H2 by lia.
    rewrite nth_error_app2 in H3 by lia. rewrite nth_error_app2 in H4 by lia.
    replace (Nat.pred (length (contextList e))) with i in Epc by lia.
    replace (Nat.pred (length (amortizationList e))) with i in Epa by lia.
    replace (S i - length (contextList e))%nat with 0%nat in H3 by lia.
    replace (S i - length (amortizationList e))%nat with 0%nat in H4 by lia.
    simpl in H3, H4. rewrite E. congruence.
  + rewrite nth_error_app1 in H1 by lia. rewrite nth_error_app1 in H2 by lia.
    rewrite nth_error_app1 in H3 by lia. rewrite nth_error_app1 in H4 by lia.
    eapply Hlk; eauto.
- intros i a' Hi Ha. rewrite nth_error_app1 in Ha by lia.
  unfold paid_off. cbn [push isSavingsMode]. now apply (Hop i).
- intros _. rewrite length_app. simpl.
  replace (Z.of_nat (length (contextList e) + 1) - 1)%Z
    with (Z.of_nat (length (contextList e))) by lia.
  exact Htest.
Qed.

Lemma run_inv_open (e0 e : Engine) (c : ContextItem.t) (a : AmortizationItem.t) :
  run_inv e0 (push c a e) (length (contextList e)) ->
  length (contextList e) = length (amortizationList e) ->
  paid_off e a = false ->
  run_inv e0 (push c a e) (length (contextList (push c a e))).
Proof.
intros [Hm Hx Ht Hl Hn Hfc Hfa Hcp Hap Hlk Hop Hts] Hlen Hp.
constructor; try assumption.
intros i a' Hi Ha.
cbn [push contextList amortizationList] in Hi, Ha.
rewrite length_app in Hi. simpl in Hi.
destruct (Nat.eq_dec i (length (contextList e))) as [E|NE].
- rewrite nth_error_app2 in Ha by lia.
  replace (i - length (amortizationList e))%nat with 0%nat in Ha by lia.
  simpl in Ha. injection Ha as <-. exact Hp.
- apply (Hop i); [lia|exact Ha].
Qed.

(** The state in which the loop is left. *)
Lemma loop_run_inv (e0 : Engine) (period : Z) (e e' : Engine) :
  loop_run period e e' ->
  period = Z.of_nat (length (contextList e)) ->
  run_inv e0 e (length (contextList e)) ->
  (left_by_break e' /\ run_inv e0 e' (pred (length (contextList e'))))
  \/ (left_by_test e' /\ run_inv e0 e' (length (contextList e'))).
Proof.
induction 1 as [period e Ht|period e c a Ht Hb Hp|period e e' c a Ht Hb Hp Hr IH];
  intros -> Hinv.
- right. split; [|assumption].
  unfold left_by_test. now rewrite <- (inv_length _ _ _ Hinv).
- left. pose proof (run_inv_push _ _ _ _ _ Hinv Ht Hb) as Hinv'.
  split.
  + exists a. cbn [push amortizationList]. rewrite last_opt_snoc.
    repeat split; [exact Hp|].
    rewrite length_app. simpl. pose proof (inv_nonempty _ _ _ Hinv).
    pose proof (inv_length _ _ _ Hinv). lia.
  + cbn [push contextList]. rewrite length_app. simpl.
    now rewrite Nat.add_1_r.
- pose proof (run_inv_push _ _ _ _ _ Hinv Ht Hb) as Hinv'.
  apply IH.
  + cbn [push contextList]. rewrite length_app. simpl. lia.
  + apply run_inv_open; [assumption|apply (inv_length _ _ _ Hinv)|assumption].
Qed.

(** *** The first entry *)

Lemma startCalculation_initial (e : Engine) :
  __startCalculation e = Return (initial_state e).
Proof. reflexivity. Qed.

Lemma initial_inv (e : Engine) : run_inv (initial_state e) (initial_state e) 1.
Proof.
constructor; try reflexivity; simpl; try lia.
intros i pc c pa a _ _ H. destruct i; discriminate.
Qed.

(** *** The totals pass *)

Lemma reduce_fold_own (l rest : list AmortizationItem.t) (rep ip : Q) :
  fold_left
    (fun previous current =>
       prev <- previous ;;
       rep <- ref_repayment l prev ;;
       ip <- ref_interestPaid l prev ;;
       Return (OwnObject (rep + AmortizationItem.repayment current)
                         (ip + AmortizationItem.interestPaid current)))
    rest (Return (OwnObject rep ip))
  = Return (OwnObject
              (fold_left (fun acc x => acc + AmortizationItem.repayment x) rest rep)
              (fold_left (fun acc x => acc + AmortizationItem.interestPaid x) rest ip)).
Proof.
revert rep ip. induction rest as [|x rest IH]; intros rep ip; simpl.
- reflexivity.
- apply IH.
Qed.

Lemma calculateTotals_eq (e : Engine) :
  (0 < length (amortizationList e))%nat ->
  __calculateTotals e
  = Return (mkEngine (isSavingsMode e) (context e) (contextList e)
              (amortizationList e) (Some (totals_of (amortizationList e)))).
Proof.
unfold __calculateTotals. destruct (amortizationList e) as [|a [|b rest]] eqn:El.
- simpl. lia.
- reflexivity.
- intros _. cbn [fold_left bind ref_repayment ref_interestPaid nth_error].
  rewrite reduce_fold_own. reflexivity.
Qed.

Lemma fold_left_Qsum (f : AmortizationItem.t -> Q) (l : list AmortizationItem.t) (x : Q) :
  fold_left (fun acc y => acc + f y) l x == x + Qsum (map f l).
Proof.
revert x. induction l as [|y l IH]; intros x; simpl.
- ring.
- rewrite IH. ring.
Qed.

Lemma reduce_sum_Qsum (f : AmortizationItem.t -> Q) (l : list AmortizationItem.t) :
  reduce_sum f l == Qsum (map f l).
Proof.
destruct l as [|a l]; simpl; [reflexivity|].
rewrite fold_left_Qsum. reflexivity.
Qed.

(** *** The interest-balance pass *)

Lemma pass_length (savings : bool) (ib : Q) (l : list AmortizationItem.t) :
  length (interestBalance_pass savings ib l) = length l.
Proof.
revert ib. induction l as [|a l IH]; intros ib; simpl; [reflexivity|].
now rewrite IH.
Qed.

(** The pass touches [interestBalance] alone. *)
Lemma pass_nth (savings : bool) (l : list AmortizationItem.t) :
  forall (ib : Q) (i : nat) (a' : AmortizationItem.t),
    nth_error (interestBalance_pass savings ib l) i = Some a' ->
    exists a, nth_error l i = Some a
              /\ a' = AmortizationItem.with_interestBalance
                        (AmortizationItem.interestBalance a') a.
Proof.
induction l as [|x l IH]; intros ib i a' H.
- destruct i; discriminate.
- destruct i as [|i]; simpl in H.
  + injection H as <-. exists x. split; reflexivity.
  + apply IH in H. exact H.
Qed.

Lemma pass_nth_inv (savings : bool) (l : list AmortizationItem.t) :
  forall (ib : Q) (i : nat) (a : AmortizationItem.t),
    nth_error l i = Some a ->
    exists v, nth_error (interestBalance_pass savings ib l) i
              = Some (AmortizationItem.with_interestBalance v a).
Proof.
induction l as [|x l IH]; intros ib i a H.
- destruct i; discriminate.
- destruct i as [|i]; simpl in H |- *.
  + injection H as <-. eexists. reflexivity.
  + eapply IH. exact H.
Qed.

Lemma pass_first (savings : bool) (ib : Q) (l : list AmortizationItem.t)
  (a a' : AmortizationItem.t) :
  nth_error l 0 = Some a ->
  nth_error (interestBalance_pass savings ib l) 0 = Some a' ->
  AmortizationItem.interestBalance a' = ib - interest_step savings a.
Proof.
destruct l as [|x l]; [discriminate|]. simpl.
intros [= ->] [= <-]. reflexivity.
Qed.

Lemma pass_next (savings : bool) (l : list AmortizationItem.t) :
  forall (ib : Q) (i : nat) (p' a' : AmortizationItem.t),
    nth_error (interestBalance_pass savings ib l) i = Some p' ->
    nth_error (interestBalance_pass savings ib l) (S i) = Some a' ->
    AmortizationItem.interestBalance a'
    = AmortizationItem.interestBalance p' - interest_step savings a'.
Proof.
induction l as [|x l IH]; intros ib i p' a' Hp Ha.
- destruct i; discriminate.
- destruct i as [|i].
  + destruct l as [|y l]; [discriminate|]. simpl in Hp, Ha.
    injection Hp as <-. injection Ha as <-. reflexivity.
  + simpl in Hp, Ha. eapply IH; eassumption.
Qed.

Lemma pass_last (savings : bool) (l : list AmortizationItem.t) :
  forall (ib : Q) (z : AmortizationItem.t),
    last_opt (interestBalance_pass savings ib l) = Some z ->
    AmortizationItem.interestBalance z
    == ib - Qsum (map (interest_step savings) l).
Proof.
induction l as [|x l IH]; intros ib z H.
- discriminate.
- destruct l as [|y l].
  + simpl in H. unfold last_opt in H. simpl in H. injection H as <-.
    simpl. unfold interest_step. ring.
  + change (interestBalance_pass savings ib (x :: y :: l))
      with (AmortizationItem.with_interestBalance (ib - interest_step savings x) x
            :: interestBalance_pass savings (ib - interest_step savings x) (y :: l))
      in H.
    simpl interestBalance_pass in H. rewrite last_opt_cons in H.
    assert (H' : last_opt (interestBalance_pass savings
                   (ib - interest_step savings x) (y :: l)) = Some z)
      by exact H.
    rewrite (IH _ _ H'). simpl. ring.
Qed.

(** *** The whole run *)

Lemma ref_interestPaid_totals_of (l : list AmortizationItem.t) :
  (0 < length l)%nat ->
  ref_interestPaid l (totals_of l)
  = Return (reduce_sum AmortizationItem.interestPaid l).
Proof.
destruct l as [|a [|b l]]; simpl; [lia| |]; reflexivity.
Qed.

Lemma ref_repayment_totals_of (l : list AmortizationItem.t) :
  (0 < length l)%nat ->
  ref_repayment l (totals_of l)
  = Return (reduce_sum AmortizationItem.repayment l).
Proof.
destruct l as [|a [|b l]]; simpl; [lia| |]; reflexivity.
Qed.

Lemma calculateInterestBalance_eq (e : Engine) :
  (0 < length (amortizationList e))%nat ->
  totals e = Some (totals_of (amortizationList e)) ->
  __calculateInterestBalance e
  = Return (mkEngine (isSavingsMode e) (context e) (contextList e)
              (interestBalance_pass (isSavingsMode e)
                 (starting_interestBalance (isSavingsMode e) (amortizationList e))
                 (amortizationList e))
              (totals e)).
Proof.
intros H Ht. unfold __calculateInterestBalance, starting_interestBalance.
rewrite Ht.
destruct (isSavingsMode e); cbn [bind]; [reflexivity|].
rewrite ref_interestPaid_totals_of by assumption. reflexivity.
Qed.

Lemma endCalculation_eq (e : Engine) :
  (0 < length (amortizationList e))%nat ->
  __endCalculation e
  = Return (mkEngine (isSavingsMode e) (context e) (contextList e)
              (interestBalance_pass (isSavingsMode e)
                 (starting_interestBalance (isSavingsMode e) (amortizationList e))
                 (amortizationList e))
              (Some (totals_of (amortizationList e)))).
Proof.
intros H. unfold __endCalculation. rewrite calculateTotals_eq by assumption.
cbn [bind]. rewrite calculateInterestBalance_eq; [reflexivity|exact H|reflexivity].
Qed.

Lemma final_state_inv (e e2 : Engine) :
  final_state e e2 ->
  run_inv (initial_state e) e2 (pred (length (contextList e2))).
Proof.
intros [[_ H]|[_ H]]; [exact H|].
destruct H as [Hm Hx Ht Hl Hn Hfc Hfa Hcp Hap Hlk Hop Hts].
constructor; try assumption.
intros i a Hi. apply Hop. lia.
Qed.

Lemma calculate_spec (e : Engine) (r : CalcResult) :
  calculate e = Return r ->
  exists e2,
    loop_run 1 (initial_state e) e2 /\ final_state e e2 /\ r = result_of e2.
Proof.
unfold calculate, calculate_state. rewrite startCalculation_initial.
cbn [bind].
destruct (calculate_loop (loop_fuel (initial_state e)) 1
            (initial_state e)) as [e2| |] eqn:El; try discriminate.
apply calculate_loop_run in El.
pose proof (loop_run_inv (initial_state e) _ _ _ El eq_refl (initial_inv e)) as Hf.
assert (Hn : (0 < length (amortizationList e2))%nat).
{ pose proof (final_state_inv _ _ Hf) as Hi.
  rewrite <- (inv_length _ _ _ Hi). apply (inv_nonempty _ _ _ Hi). }
cbn [bind]. rewrite endCalculation_eq by assumption. cbn [bind].
intros [= <-]. exists e2. split; [exact El|]. split; [exact Hf|reflexivity].
Qed.

(** A run returns: no item constructor throws and the fuel suffices. *)
Lemma calculate_returns (e : Engine) : returns (calculate e).
Proof.
unfold calculate, calculate_state. rewrite startCalculation_initial.
cbn [bind].
destruct (calculate_loop_returns (loop_fuel (initial_state e)) 1 (initial_state e))
  as [e2 El].
- simpl. lia.
- simpl. lia.
- unfold loop_fuel. cbn [initial_state context]. lia.
- rewrite El. cbn [bind].
  pose proof (calculate_loop_run _ _ _ _ El) as Hr.
  pose proof (loop_run_inv (initial_state e) _ _ _ Hr eq_refl (initial_inv e)) as Hf.
  pose proof (final_state_inv _ _ Hf) as Hi.
  rewrite endCalculation_eq.
  + cbn [bind]. eexists. reflexivity.
  + rewrite <- (inv_length _ _ _ Hi). apply (inv_nonempty _ _ _ Hi).
Qed.


(** ** The properties of the specification *)

(** *** The two lists stay aligned *)

Lemma aligned_push (period : Z) (e : Engine) (c : ContextItem.t)
  (a : AmortizationItem.t) :
  aligned e ->
  ContextItem.period c = JsInt period ->
  AmortizationItem.period a = JsInt period ->
  aligned (push c a e).
Proof.
intros (Hl & (c0 & Hc0 & Hp0) & (a0 & Ha0 & Hq0) & Hall) Hc Ha.
assert (Hn : (0 < length (contextList e))%nat) by (eapply nth_error_lt; eauto).
unfold aligned. cbn [push contextList amortizationList].
split; [|split; [|split]].
- rewrite !length_app. simpl. lia.
- exists c0. rewrite nth_error_app1 by lia. auto.
- exists a0. rewrite nth_error_app1 by lia. auto.
- intros i c' a' H1 H2.
  destruct (Nat.lt_ge_cases i (length (contextList e))) as [Hi|Hi].
  + rewrite nth_error_app1 in H1 by lia. rewrite nth_error_app1 in H2 by lia.
    eapply Hall; eauto.
  + rewrite nth_error_app2 in H1 by lia. rewrite nth_error_app2 in H2 by lia.
    rewrite <- Hl in H2.
    destruct (i - length (contextList e))%nat as [|k].
    * simpl in H1, H2. congruence.
    * destruct k; discriminate.
Qed.

Lemma aligned_pass (e : Engine) (ib : Q) :
  aligned e ->
  aligned (mkEngine (isSavingsMode e) (context e) (contextList e)
             (interestBalance_pass (isSavingsMode e) ib (amortizationList e))
             (totals e)).
Proof.
intros (Hl & Hc & (a0 & Ha0 & Hq0) & Hall).
unfold aligned. cbn [contextList amortizationList].
split; [|split; [|split]].
- now rewrite pass_length.
- exact Hc.
- destruct (pass_nth_inv (isSavingsMode e) _ ib _ _ Ha0) as [v Hv].
  eexists. split; [exact Hv|]. exact Hq0.
- intros i c a' H1 H2. apply pass_nth in H2 as (a & H2 & ->).
  cbn [AmortizationItem.with_interestBalance AmortizationItem.period].
  eapply Hall; eauto.
Qed.

Lemma reachable_aligned (e0 : Engine) (period : Z) (e : Engine) :
  reachable e0 period e -> aligned e.
Proof.
induction 1 as [e1 H|period e e' b _ IH Ht Hb|period e e' _ IH Ht|period e e' _ IH Hi].
- rewrite startCalculation_initial in H. injection H as <-.
  unfold aligned. simpl. split; [reflexivity|]. split; [eauto|]. split; [eauto|].
  intros [|i] c a; simpl; [intros [= <-] [= <-]; reflexivity|destruct i; discriminate].
- destruct (loop_body_shape _ _ _ _ Hb) as (c & a & -> & ->).
  destruct IH as (Hl & (c0 & Hc0 & Hp0) & Hrest).
  assert (Hn : (0 < length (contextList e))%nat) by (eapply nth_error_lt; eauto).
  destruct (last_opt_nonempty _ Hn) as [pc Epc].
  destruct (last_opt_nonempty (amortizationList e)) as [pa Epa]; [lia|].
  destruct (loop_body_entry _ _ _ _ _ _ _ Epc Epa Hb) as (_ & Hpc & Hpa).
  eapply aligned_push; eauto. unfold aligned. eauto.
- unfold __calculateTotals, bind in Ht.
  destruct (amortizationList e) as [|x rest] eqn:El; [discriminate|].
  destruct (fold_left _ rest _) as [t| |]; try discriminate.
  injection Ht as <-. unfold aligned in *.
  cbn [contextList amortizationList]. rewrite El in IH. exact IH.
- unfold __calculateInterestBalance, bind in Hi.
  destruct (if isSavingsMode e then _ else _) as [ib| |]; try discriminate.
  injection Hi as <-. now apply aligned_pass.
Qed.

Lemma loop_run_reachable (e0 : Engine) (period : Z) (e e' : Engine) :
  loop_run period e e' ->
  reachable e0 period e ->
  exists period', reachable e0 period' e'.
Proof.
induction 1 as [period e Ht|period e c a Ht Hb Hp|period e e' c a Ht Hb Hp Hr IH];
  intros Hreach.
- eauto.
- exists (period + 1)%Z. eapply reach_body; eauto.
- apply IH. eapply reach_body; eauto.
Qed.

(** C8: at every point of every run (after the first entries are pushed,
    after each pass through the loop body, after the totals pass and after
    the interest-balance pass), [contextList] and [amortizationList] have
    the same length, both start with an entry of period 0, and entries at
    the same index hold the same period. The lists [calculate] returns are
    those of such a point. *)
Theorem lists_aligned_throughout (e0 : Engine) :
  (forall (period : Z) (e : Engine),
     reachable e0 period e ->
     length (contextList e) = length (amortizationList e)
     /\ (exists c, nth_error (contextList e) 0 = Some c
                   /\ ContextItem.period c = JsInt 0)
     /\ (exists a, nth_error (amortizationList e) 0 = Some a
                   /\ AmortizationItem.period a = JsInt 0)
     /\ forall (i : nat) (c : ContextItem.t) (a : AmortizationItem.t),
          nth_error (contextList e) i = Some c ->
          nth_error (amortizationList e) i = Some a ->
          ContextItem.period c = AmortizationItem.period a)
  /\ exists (period : Z) (e : Engine) (r : CalcResult),
       reachable e0 period e
       /\ calculate e0 = Return r
       /\ res_contextList r = contextList e
       /\ res_amortizationList r = amortizationList e.
Proof.
split.
- intros period e H. exact (reachable_aligned _ _ _ H).
- destruct (calculate_returns e0) as [r Hr].
  destruct (calculate_spec _ _ Hr) as (e2 & Hrun & Hf & ->).
  assert (H1 : reachable e0 1 (initial_state e0)).
  { apply reach_start. apply startCalculation_initial. }
  destruct (loop_run_reachable e0 _ _ _ Hrun H1) as [p Hp].
  pose proof (final_state_inv _ _ Hf) as Hi.
  assert (Hn : (0 < length (amortizationList e2))%nat).
  { rewrite <- (inv_length _ _ _ Hi). apply (inv_nonempty _ _ _ Hi). }
  pose proof (reach_totals _ _ _ _ Hp (calculateTotals_eq e2 Hn)) as Ht.
  exists p.
  exists (mkEngine (isSavingsMode e2) (context e2) (contextList e2)
            (res_amortizationList (result_of e2))
            (Some (totals_of (amortizationList e2)))).
  exists (result_of e2).
  split; [|split; [exact Hr|split; reflexivity]].
  eapply reach_interestBalance; [exact Ht|].
  rewrite calculateInterestBalance_eq; [reflexivity|exact Hn|reflexivity].
Qed.

(** *** Early termination *)

Lemma paid_off_true (e : Engine) (a : AmortizationItem.t) :
  paid_off e a = true
  <-> isSavingsMode e = false /\ AmortizationItem.principalBalance a <= 0.
Proof.
unfold paid_off. rewrite andb_true_iff, negb_true_iff, Qle_bool_true.
reflexivity.
Qed.

Lemma paid_off_savings (e : Engine) (a : AmortizationItem.t) :
  isSavingsMode e = true -> paid_off e a = false.
Proof. intros H. unfold paid_off. now rewrite H. Qed.

Lemma paid_off_false_loan (e : Engine) (a : AmortizationItem.t) :
  isSavingsMode e = false -> paid_off e a = false ->
  0 < AmortizationItem.principalBalance a.
Proof.
unfold paid_off. intros ->. simpl. apply Qle_bool_false.
Qed.

Lemma pass_map_period (savings : bool) (l : list AmortizationItem.t) (ib : Q) :
  map AmortizationItem.period (interestBalance_pass savings ib l)
  = map AmortizationItem.period l.
Proof.
revert ib. induction l as [|x l IH]; intros ib; simpl; [reflexivity|].
now rewrite IH.
Qed.

(** When the loop test ends the loop, the lists hold the entries of the
    periods [0 .. floor effTerm]. *)
Lemma full_term_length (e0 e : Engine) (k : nat) :
  run_inv e0 e k -> left_by_test e ->
  length (amortizationList e)
  = S (Z.to_nat (Qfloor (BaseContext.effTerm (context e)))).
Proof.
intros Hi Ht. unfold left_by_test in Ht.
pose proof (inv_length _ _ _ Hi) as Hl.
pose proof (inv_nonempty _ _ _ Hi) as Hn.
pose proof (inv_tested _ _ _ Hi) as Hts.
assert (H1 : ~ (Z.of_nat (length (amortizationList e))
                <= Qfloor (BaseContext.effTerm (context e)))%Z).
{ intros H. apply loop_test_floor in H. congruence. }
destruct (Nat.le_gt_cases 2 (length (contextList e))) as [H2|H2].
- apply Hts in H2. apply loop_test_floor in H2. lia.
- lia.
Qed.

(** C3: the loop is left early exactly when the run is in loan mode and the
    balance just computed is at most 0, and nothing is appended after that.
    A run in savings mode yields the entries of the periods
    [0 .. floor effTerm], that is [effTerm + 1] entries when [effTerm] is a
    whole number; a run in loan mode holds no entry of a period from 1 on
    with a balance at most 0 before its last one, and it either ends on such
    an entry or runs the full term. *)
Theorem early_termination (e : Engine) (r : CalcResult) :
  calculate e = Return r ->
  let al := res_amortizationList r in
  let full := S (Z.to_nat (Qfloor (BaseContext.effTerm (context e)))) in
  (forall (fuel : nat) (period : Z) (s s' : Engine) (b : bool),
     Qle_bool (inject_Z period) (BaseContext.effTerm (context s)) = true ->
     loop_body period s = Return (s', b) ->
     (exists c a,
        s' = push c a s
        /\ (b = true <-> isSavingsMode s = false
                         /\ AmortizationItem.principalBalance a <= 0))
     /\ calculate_loop (S fuel) period s
        = if b then Return s' else calculate_loop fuel (period + 1) s')
  /\ map AmortizationItem.period al = periods (length al)
  /\ (isSavingsMode e = true ->
      length al = full
      /\ forall k : nat,
           BaseContext.effTerm (context e) == inject_Z (Z.of_nat k) ->
           length al = (k + 1)%nat)
  /\ (isSavingsMode e = false ->
      (forall (i : nat) (a : AmortizationItem.t),
         (1 <= i)%nat -> (S i < length al)%nat ->
         nth_error al i = Some a ->
         0 < AmortizationItem.principalBalance a)
      /\ ((exists a, last_opt al = Some a
                     /\ (2 <= length al)%nat
                     /\ AmortizationItem.principalBalance a <= 0)
          \/ (length al = full
              /\ forall (i : nat) (a : AmortizationItem.t),
                   (1 <= i)%nat -> nth_error al i = Some a ->
                   0 < AmortizationItem.principalBalance a))).
Proof.
intros Hr al full.
destruct (calculate_spec _ _ Hr) as (e2 & _ & Hf & ->).
pose proof (final_state_inv _ _ Hf) as Hi.
pose proof (inv_mode _ _ _ Hi) as Hm. cbn [initial_state isSavingsMode] in Hm.
pose proof (inv_context _ _ _ Hi) as Hx. cbn [initial_state context] in Hx.
subst al full. cbn [result_of res_amortizationList]. rewrite <- Hx, <- Hm.
split; [|split; [|split]].
- intros fuel period s s' b Ht Hb.
  destruct (loop_body_shape _ _ _ _ Hb) as (c & a & -> & ->).
  split.
  + exists c, a. split; [reflexivity|apply paid_off_true].
  + simpl. rewrite Ht, Hb. reflexivity.
- rewrite pass_map_period, pass_length. apply (inv_aperiods _ _ _ Hi).
- intros Hs. rewrite pass_length.
  assert (Hlen : length (amortizationList e2)
                 = S (Z.to_nat (Qfloor (BaseContext.effTerm (context e2))))).
  { destruct Hf as [[(a & _ & Hp & _) _]|[Ht Hinv]].
    - rewrite paid_off_savings in Hp by assumption. discriminate.
    - eapply full_term_length; eauto. }
  split; [exact Hlen|].
  intros k Hk. rewrite Hlen.
  rewrite (Qfloor_comp _ _ Hk), Qfloor_Z. lia.
- intros Hs. rewrite pass_length. split.
  + intros i a' H1 H2 Ha. apply pass_nth in Ha as (a & Ha & ->).
    cbn [AmortizationItem.with_interestBalance AmortizationItem.principalBalance].
    apply (paid_off_false_loan e2); [assumption|].
    apply (inv_open _ _ _ Hi i); [|exact Ha].
    rewrite (inv_length _ _ _ Hi). lia.
  + destruct Hf as [[(a & Hl & Hp & H2) _]|[Ht Hinv]].
    * left.
      destruct (pass_nth_inv (isSavingsMode e2) _
                  (starting_interestBalance (isSavingsMode e2) (amortizationList e2))
                  _ _ (last_opt_nth _ _ Hl)) as [v Hv].
      exists (AmortizationItem.with_interestBalance v a).
      split; [|split; [exact H2|]].
      -- destruct (last_opt_nonempty
                     (interestBalance_pass (isSavingsMode e2)
                        (starting_interestBalance (isSavingsMode e2)
                           (amortizationList e2))
                        (amortizationList e2))) as [w Hw].
         { rewrite pass_length. lia. }
         pose proof (last_opt_nth _ _ Hw) as Hw'. rewrite pass_length in Hw'.
         congruence.
      -- apply paid_off_true in Hp. apply Hp.
    * right. split; [eapply full_term_length; eauto|].
      intros i a' H1 Ha. apply pass_nth in Ha as (a & Ha & ->).
      cbn [AmortizationItem.with_interestBalance AmortizationItem.principalBalance].
      apply (paid_off_false_loan e2); [assumption|].
      apply (inv_open _ _ _ Hinv i); [|exact Ha].
      apply nth_error_lt in Ha. rewrite (inv_length _ _ _ Hinv). lia.
Qed.

(** *** Totals and interest balance *)

Lemma pass_map_repayment (savings : bool) (l : list AmortizationItem.t) (ib : Q) :
  map AmortizationItem.repayment (interestBalance_pass savings ib l)
  = map AmortizationItem.repayment l.
Proof.
revert ib. induction l as [|x l IH]; intros ib; simpl; [reflexivity|].
now rewrite IH.
Qed.

Lemma pass_map_interestPaid (savings : bool) (l : list AmortizationItem.t) (ib : Q) :
  map AmortizationItem.interestPaid (interestBalance_pass savings ib l)
  = map AmortizationItem.interestPaid l.
Proof.
revert ib. induction l as [|x l IH]; intros ib; simpl; [reflexivity|].
now rewrite IH.
Qed.

(** Reading the totals of a result: the item the reference points to keeps
    its [repayment] and [interestPaid] through the interest-balance pass. *)
Lemma totals_repayment_result (e2 : Engine) :
  (0 < length (amortizationList e2))%nat ->
  totals_repayment (result_of e2)
  = Return (reduce_sum AmortizationItem.repayment (amortizationList e2)).
Proof.
intros H. unfold totals_repayment, result_of.
cbn [res_totals res_amortizationList].
destruct (amortizationList e2) as [|a [|b l]]; simpl; [simpl in H; lia| |];
  reflexivity.
Qed.

Lemma totals_interestPaid_result (e2 : Engine) :
  (0 < length (amortizationList e2))%nat ->
  totals_interestPaid (result_of e2)
  = Return (reduce_sum AmortizationItem.interestPaid (amortizationList e2)).
Proof.
intros H. unfold totals_interestPaid, result_of.
cbn [res_totals res_amortizationList].
destruct (amortizationList e2) as [|a [|b l]]; simpl; [simpl in H; lia| |];
  reflexivity.
Qed.

Lemma final_nonempty (e e2 : Engine) :
  final_state e e2 -> (0 < length (amortizationList e2))%nat.
Proof.
intros Hf. pose proof (final_state_inv _ _ Hf) as Hi.
rewrite <- (inv_length _ _ _ Hi). apply (inv_nonempty _ _ _ Hi).
Qed.

(** The entry of period 0 in a result. *)
Lemma result_first (e e2 : Engine) :
  final_state e e2 ->
  exists v,
    nth_error (res_amortizationList (result_of e2)) 0
    = Some (AmortizationItem.mk (JsInt 0) (BaseContext.principal (context e))
              v 0 0 0)
    /\ v = starting_interestBalance (isSavingsMode e2) (amortizationList e2)
           - interest_step (isSavingsMode e2)
               (AmortizationItem.mk (JsInt 0)
                  (BaseContext.principal (context e)) 0 0 0 0).
Proof.
intros Hf. pose proof (final_state_inv _ _ Hf) as Hi.
pose proof (inv_first_amortization _ _ _ Hi) as H0.
cbn [initial_state amortizationList nth_error] in H0.
cbn [result_of res_amortizationList].
destruct (amortizationList e2) as [|x l]; [discriminate|].
simpl in H0. injection H0 as ->. simpl. eexists. split; reflexivity.
Qed.

(** C4: the totals of a run are the sums of [repayment] and of
    [interestPaid] over the whole amortization list returned, whose entry of
    period 0 contributes 0 to both. *)
Theorem totals_are_sums (e : Engine) (r : CalcResult) :
  calculate e = Return r ->
  exists (rep ip : Q) (a0 : AmortizationItem.t),
    totals_repayment r = Return rep
    /\ totals_interestPaid r = Return ip
    /\ rep == Qsum (map AmortizationItem.repayment (res_amortizationList r))
    /\ ip == Qsum (map AmortizationItem.interestPaid (res_amortizationList r))
    /\ nth_error (res_amortizationList r) 0 = Some a0
    /\ AmortizationItem.period a0 = JsInt 0
    /\ AmortizationItem.repayment a0 = 0
    /\ AmortizationItem.interestPaid a0 = 0.
Proof.
intros Hr. destruct (calculate_spec _ _ Hr) as (e2 & _ & Hf & ->).
pose proof (final_nonempty _ _ Hf) as Hn.
destruct (result_first _ _ Hf) as (v & H0 & _).
eexists _, _, _.
split; [apply totals_repayment_result; exact Hn|].
split; [apply totals_interestPaid_result; exact Hn|].
split; [|split; [|split; [exact H0|repeat split]]].
- cbn [result_of res_amortizationList]. rewrite pass_map_repayment.
  apply reduce_sum_Qsum.
- cbn [result_of res_amortizationList]. rewrite pass_map_interestPaid.
  apply reduce_sum_Qsum.
Qed.

(** C5: in the list returned, the interest balance of period 0 is the total
    interest paid in loan mode and 0 in savings mode; each later entry's
    interest balance is the previous one minus the entry's interest paid
    (that term multiplied by -1 in savings mode); in loan mode the last
    interest balance is 0. *)
Theorem interest_balance_series (e : Engine) (r : CalcResult) :
  calculate e = Return r ->
  let al := res_amortizationList r in
  (exists (a0 : AmortizationItem.t) (ip : Q),
     nth_error al 0 = Some a0
     /\ totals_interestPaid r = Return ip
     /\ AmortizationItem.interestBalance a0
        == (if isSavingsMode e then 0 else ip))
  /\ (forall (i : nat) (p a : AmortizationItem.t),
        nth_error al i = Some p ->
        nth_error al (S i) = Some a ->
        AmortizationItem.interestBalance a
        = AmortizationItem.interestBalance p
          - (if isSavingsMode e then AmortizationItem.interestPaid a * (-1)
             else AmortizationItem.interestPaid a))
  /\ (isSavingsMode e = false ->
      exists z, last_opt al = Some z
                /\ AmortizationItem.interestBalance z == 0).
Proof.
intros Hr al. destruct (calculate_spec _ _ Hr) as (e2 & _ & Hf & ->).
pose proof (final_state_inv _ _ Hf) as Hi.
pose proof (inv_mode _ _ _ Hi) as Hm. cbn [initial_state isSavingsMode] in Hm.
pose proof (final_nonempty _ _ Hf) as Hn.
subst al. rewrite <- Hm. split; [|split].
- destruct (result_first _ _ Hf) as (v & H0 & Hv).
  eexists _, _. split; [exact H0|].
  split; [apply totals_interestPaid_result; exact Hn|].
  cbn [AmortizationItem.interestBalance]. rewrite Hv.
  unfold starting_interestBalance, interest_step.
  cbn [AmortizationItem.interestPaid].
  destruct (isSavingsMode e2); ring.
- intros i p a Hp Ha. cbn [result_of res_amortizationList] in Hp, Ha.
  exact (pass_next _ _ _ _ _ _ Hp Ha).
- intros Hs. cbn [result_of res_amortizationList].
  destruct (last_opt_nonempty
              (interestBalance_pass (isSavingsMode e2)
                 (starting_interestBalance (isSavingsMode e2) (amortizationList e2))
                 (amortizationList e2))) as [z Hz].
  { rewrite pass_length. exact Hn. }
  exists z. split; [exact Hz|].
  rewrite (pass_last _ _ _ _ Hz). rewrite Hs.
  unfold starting_interestBalance. rewrite reduce_sum_Qsum.
  unfold interest_step.
  setoid_replace (Qsum (map (fun a => AmortizationItem.interestPaid a)
                          (amortizationList e2)))
    with (Qsum (map AmortizationItem.interestPaid (amortizationList e2)))
    by reflexivity.
  ring.
Qed.

(** C9: when [effTerm < 1] the loop body never runs: both lists hold the
    entry of period 0 alone, and [totals] is that very amortization item,
    so that it reads [repayment = 0] and [interestPaid = 0] and also carries
    [period], [principalPaid], [interestBalance] and [principalBalance], the
    last being the opening principal. *)
Theorem no_period_when_term_below_one (e : Engine) :
  BaseContext.effTerm (context e) < 1 ->
  exists a0 : AmortizationItem.t,
    calculate e
    = Return (mkResult (Some (SameAsItem 0))
                [merge_context (JsInt 0) (context e)] [a0])
    /\ AmortizationItem.period a0 = JsInt 0
    /\ AmortizationItem.repayment a0 = 0
    /\ AmortizationItem.interestPaid a0 = 0
    /\ AmortizationItem.principalPaid a0 = 0
    /\ AmortizationItem.interestBalance a0 == 0
    /\ AmortizationItem.principalBalance a0 = BaseContext.principal (context e).
Proof.
intros Ht.
assert (Hb : Qle_bool (inject_Z 1) (BaseContext.effTerm (context e)) = false).
{ apply Qle_bool_false. exact Ht. }
unfold calculate, calculate_state. rewrite startCalculation_initial.
cbn [bind]. unfold loop_fuel. cbn [calculate_loop initial_state context].
rewrite Hb. cbn [bind]. rewrite endCalculation_eq by (simpl; lia).
cbn [bind totals contextList amortizationList isSavingsMode totals_of
  interestBalance_pass].
eexists. split; [reflexivity|].
cbn [AmortizationItem.with_interestBalance AmortizationItem.period
  AmortizationItem.repayment AmortizationItem.interestPaid
  AmortizationItem.principalPaid AmortizationItem.interestBalance
  AmortizationItem.principalBalance].
repeat split.
unfold starting_interestBalance. simpl. destruct (isSavingsMode e); ring.
Qed.

(** *** The scheduled repayment *)

(** The scheduled repayment the loop body stores in the context of a period,
    in terms of the previous context and of the context's own fields. *)
Lemma entry_repayment (savings : bool) (base : BaseContext.t) (period : Z)
  (pc c : ContextItem.t) (pa a : AmortizationItem.t) :
  period_entry savings base period pc pa c a ->
  ContextItem.repayment c
  = if negb savings
       && ((period =? 1)%Z
           || negb (Qeq_bool (ContextItem.effInterestRate pc)
                             (ContextItem.effInterestRate c)))
    then
      if String.eqb (ContextItem.repaymentType c) interestOnly
      then ContextItem.principal c * ContextItem.effInterestRate c
      else pmt (ContextItem.principal c) (ContextItem.effInterestRate c)
             (ContextItem.effTerm c - inject_Z period + 1)
    else ContextItem.repayment pc.
Proof.
unfold period_entry, loop_body, __calculateContextAt, __calculateAmortizationAt.
cbn [new_ContextItem new_AmortizationItem bind SummaryItem JsInt isUndefined
  isNaN last_opt rev app amortizationList contextList isSavingsMode context
  totals].
intros [b H].
match type of H with
| context [if savings then (?x, ?y, ?z) else ?B] =>
    destruct (if savings then (x, y, z) else B) as [[r pp] pb]
end.
injection H as Hc _ _. rewrite <- Hc.
cbn [ContextItem.with_repayment ContextItem.repayment
  ContextItem.effInterestRate ContextItem.repaymentType ContextItem.principal
  ContextItem.effTerm].
unfold __calculateRepayment. reflexivity.
Qed.

(** In savings mode every context of the list carries the configured
    repayment. *)
Lemma savings_repayment_carried (e0 e : Engine) (k : nat) :
  run_inv (initial_state e0) e k ->
  isSavingsMode e = true ->
  forall (i : nat) (c : ContextItem.t),
    nth_error (contextList e) i = Some c ->
    ContextItem.repayment c = BaseContext.repayment (context e0).
Proof.
intros Hi Hs. induction i as [|i IH]; intros c Hc.
- rewrite (inv_first_context _ _ _ Hi) in Hc. simpl in Hc.
  injection Hc as <-. reflexivity.
- assert (Hlt : (S i < length (contextList e))%nat) by (eapply nth_error_lt; eauto).
  destruct (nth_error (contextList e) i) as [pc|] eqn:Epc;
    [|apply nth_error_None in Epc; lia].
  pose proof (inv_length _ _ _ Hi) as Hl.
  destruct (nth_error (amortizationList e) i) as [pa|] eqn:Epa;
    [|apply nth_error_None in Epa; lia].
  destruct (nth_error (amortizationList e) (S i)) as [a|] eqn:Ea;
    [|apply nth_error_None in Ea; lia].
  pose proof (inv_linked _ _ _ Hi i pc c pa a Epc Epa Hc Ea) as He.
  apply entry_repayment in He. rewrite He, Hs. simpl. now apply IH.
Qed.

(** C2: for every period [i >= 1] of a run, the scheduled repayment stored in
    the period's context is the one carried by the previous context, unless
    the run is in loan mode and the period is the first or its effective
    rate differs from the previous period's: it is then recomputed, as
    [principal * effInterestRate] for an interest-only loan and as the
    annuity payment over [effTerm - i + 1] periods otherwise. In savings
    mode it is always the configured repayment. *)
Theorem scheduled_repayment (e : Engine) (r : CalcResult) :
  calculate e = Return r ->
  forall (i : nat) (pc c : ContextItem.t),
    nth_error (res_contextList r) i = Some pc ->
    nth_error (res_contextList r) (S i) = Some c ->
    let recomputed :=
      isSavingsMode e = false
      /\ (S i = 1%nat
          \/ ~ ContextItem.effInterestRate pc == ContextItem.effInterestRate c) in
    (recomputed ->
     ContextItem.repayment c
     = if String.eqb (ContextItem.repaymentType c) interestOnly
       then ContextItem.principal c * ContextItem.effInterestRate c
       else pmt (ContextItem.principal c) (ContextItem.effInterestRate c)
              (ContextItem.effTerm c - inject_Z (Z.of_nat (S i)) + 1))
    /\ (~ recomputed -> ContextItem.repayment c = ContextItem.repayment pc)
    /\ (isSavingsMode e = true ->
        ContextItem.repayment c = BaseContext.repayment (context e)).
Proof.
intros Hr i pc c Hpc Hc recomputed.
destruct (calculate_spec _ _ Hr) as (e2 & _ & Hf & ->).
pose proof (final_state_inv _ _ Hf) as Hi.
pose proof (inv_mode _ _ _ Hi) as Hm. cbn [initial_state isSavingsMode] in Hm.
cbn [result_of res_contextList] in Hpc, Hc.
assert (Hlt : (S i < length (contextList e2))%nat) by (eapply nth_error_lt; eauto).
pose proof (inv_length _ _ _ Hi) as Hl.
destruct (nth_error (amortizationList e2) i) as [pa|] eqn:Epa;
  [|apply nth_error_None in Epa; lia].
destruct (nth_error (amortizationList e2) (S i)) as [a|] eqn:Ea;
  [|apply nth_error_None in Ea; lia].
pose proof (inv_linked _ _ _ Hi i pc c pa a Hpc Epa Hc Ea) as He.
apply entry_repayment in He. rewrite Hm in He.
assert (Hdec : (negb (isSavingsMode e)
                && ((Z.of_nat (S i) =? 1)%Z
                    || negb (Qeq_bool (ContextItem.effInterestRate pc)
                                      (ContextItem.effInterestRate c))) = true)
               <-> recomputed).
{ unfold recomputed.
  rewrite andb_true_iff, orb_true_iff, !negb_true_iff, Z.eqb_eq.
  rewrite Qeq_bool_false. split.
  - intros [H1 [H2|H2]]; split; auto. left. lia.
  - intros [H1 [H2|H2]]; split; auto. left. lia. }
split; [|split].
- intros H. apply Hdec in H. rewrite H in He. exact He.
- intros H.
  destruct (negb (isSavingsMode e) && _) eqn:E in He; [|exact He].
  exfalso. apply H, Hdec. exact E.
- intros Hs. rewrite <- Hm in Hs.
  apply (savings_repayment_carried e e2 _ Hi Hs (S i) c Hc).
Qed.

(** *** The amortization of a period *)

(** The amortization item of a period in terms of the fields of the
    period's context as stored. *)
Lemma entry_amortization (savings : bool) (base : BaseContext.t) (period : Z)
  (pc c : ContextItem.t) (pa a : AmortizationItem.t) :
  period_entry savings base period pc pa c a ->
  let adjusted :=
    ContextItem.repayment c + orZero (ContextItem.effExtraRepayment c)
    + orZero (ContextItem.lumpSum c) in
  let interestPaid :=
    Qmax ((ContextItem.principal c - orZero (ContextItem.offset c))
          * ContextItem.effInterestRate c) 0 in
  let paid :=
    if Qgt_bool adjusted (ContextItem.principal c)
    then ContextItem.principal c + interestPaid
    else adjusted in
  ContextItem.principal c = AmortizationItem.principalBalance pa
  /\ AmortizationItem.interestPaid a = interestPaid
  /\ AmortizationItem.principalPaid a
     = (if savings then 0 else paid - interestPaid)
  /\ AmortizationItem.principalBalance a
     = (if savings then ContextItem.principal c + adjusted + interestPaid
        else ContextItem.principal c - (paid - interestPaid))
  /\ AmortizationItem.repayment a
     = (if savings then adjusted else paid) + orZero (ContextItem.fee c).
Proof.
unfold period_entry, loop_body, __calculateContextAt, __calculateAmortizationAt.
cbn [new_ContextItem new_AmortizationItem bind SummaryItem JsInt isUndefined
  isNaN last_opt rev app amortizationList contextList isSavingsMode context
  totals].
intros [b H]. destruct savings; cbn iota zeta in H;
  injection H as Hc Ha _; rewrite <- Hc, <- Ha;
  cbn [ContextItem.with_repayment ContextItem.repayment
    ContextItem.effInterestRate ContextItem.principal ContextItem.fee
    ContextItem.offset ContextItem.lumpSum ContextItem.effExtraRepayment
    AmortizationItem.interestPaid AmortizationItem.principalPaid
    AmortizationItem.principalBalance AmortizationItem.repayment];
  repeat split; apply process_all_principal.
Qed.

(** C1 (as the code has it): in loan mode, for every period, the adjusted
    repayment (scheduled repayment plus [effExtraRepayment] plus [lumpSum],
    before the fee) is replaced if and only if it exceeds the period's
    opening principal, and it is then set to exactly
    [principal + interestPaid]; then
    [principalPaid = repayment - interestPaid] and
    [principalBalance = principal - principalPaid]. *)
Theorem loan_repayment_clamp (e : Engine) (r : CalcResult) :
  calculate e = Return r ->
  isSavingsMode e = false ->
  forall (i : nat) (c : ContextItem.t) (a : AmortizationItem.t),
    nth_error (res_contextList r) (S i) = Some c ->
    nth_error (res_amortizationList r) (S i) = Some a ->
    let principal := ContextItem.principal c in
    let interestPaid := AmortizationItem.interestPaid a in
    let adjusted :=
      ContextItem.repayment c + orZero (ContextItem.effExtraRepayment c)
      + orZero (ContextItem.lumpSum c) in
    exists repayment : Q,
      AmortizationItem.repayment a = repayment + orZero (ContextItem.fee c)
      /\ (principal < adjusted -> repayment = principal + interestPaid)
      /\ (adjusted <= principal -> repayment = adjusted)
      /\ AmortizationItem.principalPaid a = repayment - interestPaid
      /\ AmortizationItem.principalBalance a
         = principal - AmortizationItem.principalPaid a.
Proof.
intros Hr Hs i c a' Hc Ha'.
destruct (calculate_spec _ _ Hr) as (e2 & _ & Hf & ->).
pose proof (final_state_inv _ _ Hf) as Hi.
pose proof (inv_mode _ _ _ Hi) as Hm. cbn [initial_state isSavingsMode] in Hm.
cbn [result_of res_contextList res_amortizationList] in Hc, Ha'.
apply pass_nth in Ha' as (a & Ha & ->).
assert (Hlt : (S i < length (contextList e2))%nat) by (eapply nth_error_lt; eauto).
pose proof (inv_length _ _ _ Hi) as Hl.
destruct (nth_error (contextList e2) i) as [pc|] eqn:Epc;
  [|apply nth_error_None in Epc; lia].
destruct (nth_error (amortizationList e2) i) as [pa|] eqn:Epa;
  [|apply nth_error_None in Epa; lia].
pose proof (inv_linked _ _ _ Hi i pc c pa a Epc Epa Hc Ha) as He.
rewrite Hm, Hs in He.
destruct (entry_amortization _ _ _ _ _ _ _ He) as (_ & Hip & Hpp & Hpb & Hrep).
cbn [AmortizationItem.with_interestBalance AmortizationItem.repayment
  AmortizationItem.interestPaid AmortizationItem.principalPaid
  AmortizationItem.principalBalance].
cbv zeta. rewrite Hip, Hpp, Hpb, Hrep.
eexists. split; [reflexivity|].
split; [|split; [|split; reflexivity]].
- intros H. apply Qgt_bool_true in H. rewrite H. reflexivity.
- intros H. apply Qgt_bool_false in H. rewrite H. reflexivity.
Qed.

(** C7: the fee of a period is added to the reported repayment after
    [interestPaid], [principalPaid] and [principalBalance] are computed:
    whatever the fee, those three fields and the stored scheduled repayment
    are the same, and the reported repayment is one common amount plus the
    fee. *)
Theorem fee_after_balance (period : Z) (c : ContextItem.t) (e : Engine)
  (fee1 fee2 : option Q) :
  (0 < length (contextList e))%nat ->
  exists (c1 c2 : ContextItem.t) (a1 a2 : AmortizationItem.t) (repayment : Q),
    __calculateAmortizationAt period (ContextItem.with_fee fee1 c) e
    = Return (c1, a1)
    /\ __calculateAmortizationAt period (ContextItem.with_fee fee2 c) e
       = Return (c2, a2)
    /\ AmortizationItem.interestPaid a1 = AmortizationItem.interestPaid a2
    /\ AmortizationItem.principalPaid a1 = AmortizationItem.principalPaid a2
    /\ AmortizationItem.principalBalance a1 = AmortizationItem.principalBalance a2
    /\ ContextItem.repayment c1 = ContextItem.repayment c2
    /\ AmortizationItem.repayment a1 = repayment + orZero fee1
    /\ AmortizationItem.repayment a2 = repayment + orZero fee2.
Proof.
intros Hn. destruct (last_opt_nonempty _ Hn) as [pc Epc].
unfold __calculateAmortizationAt. rewrite Epc.
cbn [new_AmortizationItem bind SummaryItem JsInt isUndefined isNaN].
destruct (isSavingsMode e); cbn iota zeta;
  cbn [ContextItem.with_repayment ContextItem.with_fee ContextItem.repayment
    ContextItem.effInterestRate ContextItem.principal ContextItem.fee
    ContextItem.offset ContextItem.lumpSum ContextItem.effExtraRepayment
    ContextItem.repaymentType ContextItem.effTerm];
  eexists _, _, _, _, _;
  (split; [reflexivity|]); (split; [reflexivity|]);
  cbn [ContextItem.repayment AmortizationItem.interestPaid
    AmortizationItem.principalPaid AmortizationItem.principalBalance
    AmortizationItem.repayment];
  repeat split; reflexivity.
Qed.

(** *** The constructor guard *)

Lemma SummaryItem_throws (period : JsValue) :
  throws (SummaryItem period) <-> isUndefined period = true \/ isNaN period = true.
Proof.
unfold SummaryItem, throws.
destruct (isUndefined period); [split; eauto|].
destruct (isNaN period); [split; eauto|].
split; [intros [msg H]; discriminate|intros [H|H]; discriminate].
Qed.

(** C6 (as the code has it): for a period that is [undefined] or a number,
    constructing a [ContextItem] or an [AmortizationItem] throws if and only
    if the period is [undefined] or [NaN] (an infinite period is accepted);
    a run of [calculate] never throws, whatever the rate, the term and the
    principal; and an error thrown by the first entries or inside the loop
    ends the run with that error, no result being returned. *)
Theorem period_guard (e : Engine) :
  (forall (period : JsValue) (base : BaseContext.t),
     period = JsUndefined \/ (exists n, period = JsNumber n) ->
     (throws (new_ContextItem period base)
      <-> period = JsUndefined \/ period = JsNumber JsNaN)
     /\ (throws (new_AmortizationItem period)
         <-> period = JsUndefined \/ period = JsNumber JsNaN))
  /\ returns (calculate e)
  /\ (forall msg, __startCalculation e = Throw msg -> calculate e = Throw msg)
  /\ (forall (fuel : nat) (period : Z) (s : Engine) (msg : string),
        Qle_bool (inject_Z period) (BaseContext.effTerm (context s)) = true ->
        loop_body period s = Throw msg ->
        calculate_loop (S fuel) period s = Throw msg)
  /\ (forall (e1 : Engine) (msg : string),
        __startCalculation e = Return e1 ->
        calculate_loop (loop_fuel e1) 1 e1 = Throw msg ->
        calculate e = Throw msg).
Proof.
split; [|split; [|split; [|split]]].
- intros period base Hp.
  assert (Hg : throws (SummaryItem period)
               <-> period = JsUndefined \/ period = JsNumber JsNaN).
  { rewrite SummaryItem_throws.
    destruct Hp as [->|[n ->]]; simpl.
    - split; auto.
    - destruct n; simpl; split; intros [H|H]; try discriminate; auto. }
  unfold new_ContextItem, new_AmortizationItem, throws in *.
  split; (rewrite <- Hg; destruct (SummaryItem period); simpl;
          split; intros [m H]; try discriminate; eauto).
- apply calculate_returns.
- intros msg H. unfold calculate, calculate_state. rewrite H. reflexivity.
- intros fuel period s msg Ht Hb. simpl. rewrite Ht, Hb. reflexivity.
- intros e1 msg H1 H2. unfold calculate, calculate_state.
  rewrite H1. cbn [bind]. rewrite H2. reflexivity.
Qed.

(** ** Further properties of the engine *)

(** An entry of a period from 1 on in a result, with the entry before it. *)
Lemma result_entry (e e2 : Engine) (i : nat) (c : ContextItem.t)
  (a' : AmortizationItem.t) :
  final_state e e2 ->
  nth_error (contextList e2) (S i) = Some c ->
  nth_error (res_amortizationList (result_of e2)) (S i) = Some a' ->
  exists (pc : ContextItem.t) (pa a : AmortizationItem.t),
    nth_error (contextList e2) i = Some pc
    /\ nth_error (amortizationList e2) i = Some pa
    /\ nth_error (amortizationList e2) (S i) = Some a
    /\ a' = AmortizationItem.with_interestBalance
              (AmortizationItem.interestBalance a') a
    /\ period_entry (isSavingsMode e) (context e) (Z.of_nat (S i)) pc pa c a.
Proof.
intros Hf Hc Ha'.
pose proof (final_state_inv _ _ Hf) as Hi.
pose proof (inv_mode _ _ _ Hi) as Hm. cbn [initial_state isSavingsMode] in Hm.
pose proof (inv_context _ _ _ Hi) as Hx. cbn [initial_state context] in Hx.
pose proof (inv_length _ _ _ Hi) as Hl.
cbn [result_of res_amortizationList] in Ha'.
apply pass_nth in Ha' as (a & Ha & Ha').
assert (Hlt : (S i < length (contextList e2))%nat) by (eapply nth_error_lt; eauto).
destruct (nth_error (contextList e2) i) as [pc|] eqn:Epc;
  [|apply nth_error_None in Epc; lia].
destruct (nth_error (amortizationList e2) i) as [pa|] eqn:Epa;
  [|apply nth_error_None in Epa; lia].
exists pc, pa, a. repeat split; try assumption.
rewrite <- Hm, <- Hx. apply (inv_linked _ _ _ Hi i); assumption.
Qed.

(** The amortization entry at an index of a result where a context is. *)
Lemma result_amortization_at (e e2 : Engine) (i : nat) (c : ContextItem.t) :
  final_state e e2 ->
  nth_error (contextList e2) i = Some c ->
  exists a', nth_error (res_amortizationList (result_of e2)) i = Some a'.
Proof.
intros Hf Hc. pose proof (final_state_inv _ _ Hf) as Hi.
pose proof (inv_length _ _ _ Hi) as Hl.
apply nth_error_lt in Hc.
destruct (nth_error (res_amortizationList (result_of e2)) i) as [a'|] eqn:E;
  [eauto|].
apply nth_error_None in E. cbn [result_of res_amortizationList] in E.
rewrite pass_length in E. lia.
Qed.

(** X1: the balances chain through a run. The entries of period 0 hold the
    principal of the base context, the opening principal of every later
    period is the closing balance of the period before, and the i-th context
    is that of period i. *)
Theorem balances_chain (e : Engine) (r : CalcResult) :
  calculate e = Return r ->
  (exists (c0 : ContextItem.t) (a0 : AmortizationItem.t),
     nth_error (res_contextList r) 0 = Some c0
     /\ nth_error (res_amortizationList r) 0 = Some a0
     /\ ContextItem.principal c0 = BaseContext.principal (context e)
     /\ AmortizationItem.principalBalance a0 = BaseContext.principal (context e))
  /\ (forall (i : nat) (pa : AmortizationItem.t) (c : ContextItem.t),
        nth_error (res_amortizationList r) i = Some pa ->
        nth_error (res_contextList r) (S i) = Some c ->
        ContextItem.principal c = AmortizationItem.principalBalance pa)
  /\ map ContextItem.period (res_contextList r)
     = periods (length (res_contextList r)).
Proof.
intros Hr. destruct (calculate_spec _ _ Hr) as (e2 & _ & Hf & ->).
pose proof (final_state_inv _ _ Hf) as Hi.
split; [|split].
- destruct (result_first _ _ Hf) as (v & H0 & _).
  pose proof (inv_first_context _ _ _ Hi) as Hc0.
  cbn [initial_state contextList nth_error] in Hc0.
  eexists _, _. split; [exact Hc0|]. split; [exact H0|]. split; reflexivity.
- intros i pa' c Hpa' Hc. cbn [result_of res_contextList] in Hc.
  destruct (result_amortization_at _ _ _ _ Hf Hc) as [a' Ha'].
  destruct (result_entry _ _ _ _ _ Hf Hc Ha') as (pc & pa & a & Epc & Epa & Ea & _ & He).
  cbn [result_of res_amortizationList] in Hpa'.
  apply pass_nth in Hpa' as (pa2 & Hpa2 & ->).
  assert (pa2 = pa) by congruence. subst pa2.
  cbn [AmortizationItem.with_interestBalance AmortizationItem.principalBalance].
  apply (entry_amortization _ _ _ _ _ _ _ He).
- cbn [result_of res_contextList]. apply (inv_cperiods _ _ _ Hi).
Qed.

Lemma Qmax_0_nonneg (x : Q) : 0 <= Qmax x 0.
Proof. apply Q.le_max_r. Qed.

(** The interest paid of an entry of a result. *)
Lemma result_interestPaid (e e2 : Engine) (i : nat) (c : ContextItem.t)
  (a : AmortizationItem.t) :
  final_state e e2 ->
  nth_error (contextList e2) (S i) = Some c ->
  nth_error (res_amortizationList (result_of e2)) (S i) = Some a ->
  AmortizationItem.interestPaid a
  = Qmax ((ContextItem.principal c - orZero (ContextItem.offset c))
          * ContextItem.effInterestRate c) 0.
Proof.
intros Hf Hc Ha'.
destruct (result_entry _ _ _ _ _ Hf Hc Ha') as (pc & pa & a0 & _ & _ & _ & -> & He).
cbn [AmortizationItem.with_interestBalance AmortizationItem.interestPaid].
apply (entry_amortization _ _ _ _ _ _ _ He).
Qed.

Lemma result_interest_nonneg (e e2 : Engine) (i : nat) (a : AmortizationItem.t) :
  final_state e e2 ->
  nth_error (res_amortizationList (result_of e2)) i = Some a ->
  0 <= AmortizationItem.interestPaid a.
Proof.
intros Hf Ha. pose proof (final_state_inv _ _ Hf) as Hi.
destruct i as [|i].
- destruct (result_first _ _ Hf) as (v & H0 & _).
  rewrite H0 in Ha. injection Ha as <-. simpl. lra.
- destruct (nth_error (contextList e2) (S i)) as [c|] eqn:Ec.
  + rewrite (result_interestPaid _ _ _ _ _ Hf Ec Ha). apply Qmax_0_nonneg.
  + apply nth_error_None in Ec. apply nth_error_lt in Ha.
    cbn [result_of res_amortizationList] in Ha. rewrite pass_length in Ha.
    pose proof (inv_length _ _ _ Hi). lia.
Qed.

(** X2: the interest paid of an entry is never negative; from period 1 on
    it is [(principal - offset) * effInterestRate] floored at 0, and so it
    is 0 when the offset covers the principal and the rate is not
    negative. *)
Theorem interest_never_negative (e : Engine) (r : CalcResult) :
  calculate e = Return r ->
  (forall (i : nat) (a : AmortizationItem.t),
     nth_error (res_amortizationList r) i = Some a ->
     0 <= AmortizationItem.interestPaid a)
  /\ (forall (i : nat) (c : ContextItem.t) (a : AmortizationItem.t),
        nth_error (res_contextList r) (S i) = Some c ->
        nth_error (res_amortizationList r) (S i) = Some a ->
        AmortizationItem.interestPaid a
        = Qmax ((ContextItem.principal c - orZero (ContextItem.offset c))
                * ContextItem.effInterestRate c) 0
        /\ (ContextItem.principal c <= orZero (ContextItem.offset c) ->
            0 <= ContextItem.effInterestRate c ->
            AmortizationItem.interestPaid a == 0)).
Proof.
intros Hr. destruct (calculate_spec _ _ Hr) as (e2 & _ & Hf & ->).
split.
- intros i a Ha. exact (result_interest_nonneg _ _ _ _ Hf Ha).
- intros i c a Hc Ha. cbn [result_of res_contextList] in Hc.
  pose proof (result_interestPaid _ _ _ _ _ Hf Hc Ha) as H. split; [exact H|].
  intros Ho Hrate. rewrite H.
  apply Q.max_r. nra.
Qed.








(** The state a run leaves the engine in. *)
Lemma calculate_state_spec (e e3 : Engine) :
  calculate_state e = Return e3 ->
  exists e2,
    final_state e e2
    /\ e3 = mkEngine (isSavingsMode e2) (context e2) (contextList e2)
              (res_amortizationList (result_of e2))
              (Some (totals_of (amortizationList e2))).
Proof.
unfold calculate_state. rewrite startCalculation_initial. cbn [bind].
destruct (calculate_loop (loop_fuel (initial_state e)) 1 (initial_state e))
  as [e2| |] eqn:El; try discriminate.
apply calculate_loop_run in El.
pose proof (loop_run_inv (initial_state e) _ _ _ El eq_refl (initial_inv e)) as Hf.
cbn [bind]. rewrite endCalculation_eq by exact (final_nonempty _ _ Hf).
intros [= <-]. exists e2. split; [exact Hf|reflexivity].
Qed.

Lemma calculate_same_inputs (e e' : Engine) :
  isSavingsMode e' = isSavingsMode e ->
  context e' = context e ->
  calculate e' = calculate e.
Proof.
intros Hm Hx. unfold calculate, calculate_state.
rewrite !startCalculation_initial. unfold initial_state. now rewrite Hm, Hx.
Qed.

(** X7: a run starts afresh. The result of [calculate] depends on the mode
    and the base context alone, not on the lists and totals the engine
    holds; calling it again on the engine as the first run left it returns
    the result of the first run, which is what that engine holds. *)
Theorem rerun_same_result (e : Engine) :
  (forall (lists : list ContextItem.t) (items : list AmortizationItem.t)
          (t : option TotalsRef),
     calculate (mkEngine (isSavingsMode e) (context e) lists items t)
     = calculate e)
  /\ forall e3 : Engine,
       calculate_state e = Return e3 ->
       calculate e3 = calculate e
       /\ calculate e
          = Return (mkResult (totals e3) (contextList e3) (amortizationList e3)).
Proof.
split.
- intros lists items t. apply calculate_same_inputs; reflexivity.
- intros e3 H3. split.
  + destruct (calculate_state_spec _ _ H3) as (e2 & Hf & ->).
    pose proof (final_state_inv _ _ Hf) as Hi.
    apply calculate_same_inputs; cbn [isSavingsMode context].
    * exact (inv_mode _ _ _ Hi).
    * exact (inv_context _ _ _ Hi).
  + unfold calculate. rewrite H3. reflexivity.
Qed.

(** X8: the number of entries. A run yields at least the entry of period 0
    and at most one entry per period up to [floor effTerm]; it yields the
    entry of period 1 as soon as [effTerm >= 1]. *)
Theorem entry_count_bounds (e : Engine) (r : CalcResult) :
  calculate e = Return r ->
  (1 <= length (res_amortizationList r))%nat
  /\ (length (res_amortizationList r)
      <= S (Z.to_nat (Qfloor (BaseContext.effTerm (context e)))))%nat
  /\ length (res_contextList r) = length (res_amortizationList r)
  /\ (1 <= BaseContext.effTerm (context e) ->
      (2 <= length (res_amortizationList r))%nat).
Proof.
intros Hr. destruct (calculate_spec _ _ Hr) as (e2 & _ & Hf & ->).
pose proof (final_state_inv _ _ Hf) as Hi.
pose proof (inv_context _ _ _ Hi) as Hx. cbn [initial_state context] in Hx.
pose proof (inv_length _ _ _ Hi) as Hl.
pose proof (inv_nonempty _ _ _ Hi) as Hn.
cbn [result_of res_amortizationList res_contextList]. rewrite pass_length.
split; [lia|]. split; [|split; [exact Hl|]].
- destruct (Nat.le_gt_cases 2 (length (contextList e2))) as [H2|H2]; [|lia].
  pose proof (inv_tested _ _ _ Hi H2) as Ht.
  apply loop_test_floor in Ht. rewrite Hx in Ht. lia.
- intros H1. destruct Hf as [[(a & _ & _ & H2) _]|[Ht _]]; [exact H2|].
  unfold left_by_test in Ht. rewrite Hx in Ht. apply Qle_bool_false in Ht.
  destruct (Nat.le_gt_cases 2 (length (amortizationList e2))) as [H2|H2];
    [exact H2|exfalso].
  assert (E : length (amortizationList e2) = 1%nat) by lia.
  rewrite E in Ht. change (inject_Z (Z.of_nat 1)) with 1 in Ht. lra.
Qed.

(** Without operators the context of a period is the base context with the
    opening balance and the scheduled repayment. *)
Lemma entry_context_plain (savings : bool) (base : BaseContext.t) (period : Z)
  (pc c : ContextItem.t) (pa a : AmortizationItem.t) :
  getOperatorsAt period = [] ->
  period_entry savings base period pc pa c a ->
  c = ContextItem.with_repayment (ContextItem.repayment c)
        (ContextItem.with_principal (AmortizationItem.principalBalance pa)
           (merge_context (JsInt period) base)).
Proof.
intros Hops.
unfold period_entry, loop_body, __calculateContextAt, __calculateAmortizationAt.
rewrite Hops.
cbn [new_ContextItem new_AmortizationItem bind SummaryItem JsInt isUndefined
  isNaN last_opt rev app amortizationList contextList isSavingsMode context
  totals process_all fold_left].
intros [b H].
match type of H with
| context [if savings then (?x, ?y, ?z) else ?B] =>
    destruct (if savings then (x, y, z) else B) as [[r pp] pb]
end.
injection H as Hc _ _. rewrite <- Hc. reflexivity.
Qed.

(** In loan mode an entry with a balance of at most 0 is the last. *)
Lemma nonpositive_is_last (e e2 : Engine) (i : nat) (a : AmortizationItem.t) :
  final_state e e2 ->
  isSavingsMode e = false ->
  nth_error (amortizationList e2) (S i) = Some a ->
  AmortizationItem.principalBalance a <= 0 ->
  length (amortizationList e2) = S (S i).
Proof.
intros Hf Hs Ea Hle. pose proof (final_state_inv _ _ Hf) as Hi.
pose proof (inv_mode _ _ _ Hi) as Hm. cbn [initial_state isSavingsMode] in Hm.
pose proof (inv_length _ _ _ Hi) as Hl.
apply nth_error_lt in Ea as Hlt.
destruct (Nat.eq_dec (length (amortizationList e2)) (S (S i))) as [E|NE];
  [exact E|exfalso].
assert (Hopen : paid_off e2 a = false).
{ apply (inv_open _ _ _ Hi (S i)); [lia|exact Ea]. }
apply paid_off_false_loan in Hopen; [lra|congruence].
Qed.

(** The entry of period 1 exists as soon as [effTerm >= 1]. *)
Lemma first_period_computed (e e2 : Engine) :
  final_state e e2 ->
  1 <= BaseContext.effTerm (context e) ->
  (2 <= length (amortizationList e2))%nat.
Proof.
intros Hf H1. pose proof (final_state_inv _ _ Hf) as Hi.
pose proof (inv_context _ _ _ Hi) as Hx. cbn [initial_state context] in Hx.
pose proof (inv_length _ _ _ Hi) as Hl.
pose proof (inv_nonempty _ _ _ Hi) as Hn.
destruct Hf as [[(a & _ & _ & H2) _]|[Ht _]]; [exact H2|].
unfold left_by_test in Ht. rewrite Hx in Ht. apply Qle_bool_false in Ht.
destruct (Nat.le_gt_cases 2 (length (amortizationList e2))) as [H2|H2];
  [exact H2|exfalso].
assert (E : length (amortizationList e2) = 1%nat) by lia.
rewrite E in Ht. change (inject_Z (Z.of_nat 1)) with 1 in Ht. lra.
Qed.

(** What the entry at index [k] holds in an interest-only run. *)
Lemma interest_only_entries (e e2 : Engine) (u : nat) :
  (forall period, getOperatorsAt period = []) ->
  isSavingsMode e = false ->
  BaseContext.repaymentType (context e) = interestOnly ->
  0 < BaseContext.principal (context e) ->
  0 <= BaseContext.effInterestRate (context e) <= 1 ->
  run_inv (initial_state e) e2 u ->
  forall (k : nat) (c : ContextItem.t) (a : AmortizationItem.t),
    nth_error (contextList e2) k = Some c ->
    nth_error (amortizationList e2) k = Some a ->
    ContextItem.effInterestRate c = BaseContext.effInterestRate (context e)
    /\ AmortizationItem.principalBalance a == BaseContext.principal (context e)
    /\ ((1 <= k)%nat ->
        ContextItem.repayment c
        == BaseContext.principal (context e)
           * BaseContext.effInterestRate (context e)
        /\ AmortizationItem.repayment a
           == BaseContext.principal (context e)
              * BaseContext.effInterestRate (context e)
        /\ AmortizationItem.interestPaid a
           == BaseContext.principal (context e)
              * BaseContext.effInterestRate (context e)
        /\ AmortizationItem.principalPaid a == 0).
Proof.
intros Hops Hs Hio Hpv [Hr0 Hr1] Hi.
pose proof (inv_mode _ _ _ Hi) as Hm. cbn [initial_state isSavingsMode] in Hm.
pose proof (inv_context _ _ _ Hi) as Hx. cbn [initial_state context] in Hx.
pose proof (inv_length _ _ _ Hi) as Hl.
set (P := BaseContext.principal (context e)) in *.
set (rate := BaseContext.effInterestRate (context e)) in *.
induction k as [|k IH]; intros c a Hc Ha.
- rewrite (inv_first_context _ _ _ Hi) in Hc.
  rewrite (inv_first_amortization _ _ _ Hi) in Ha.
  simpl in Hc, Ha. injection Hc as <-. injection Ha as <-.
  split; [reflexivity|]. split; [reflexivity|lia].
- assert (Hlt : (S k < length (contextList e2))%nat) by (eapply nth_error_lt; eauto).
  destruct (nth_error (contextList e2) k) as [pc|] eqn:Epc;
    [|apply nth_error_None in Epc; lia].
  destruct (nth_error (amortizationList e2) k) as [pa|] eqn:Epa;
    [|apply nth_error_None in Epa; lia].
  destruct (IH pc pa eq_refl eq_refl) as (Hrpc & Hbpa & Hkpc).
  pose proof (inv_linked _ _ _ Hi k pc c pa a Epc Epa Hc Ha) as He.
  rewrite Hm, Hx in He.
  pose proof (entry_context_plain _ _ _ _ _ _ _ (Hops _) He) as Hctx.
  pose proof (entry_repayment _ _ _ _ _ _ _ He) as Hrep.
  destruct (entry_amortization _ _ _ _ _ _ _ He)
    as (Hp & Hip & Hpp & Hpb & Hra).
  assert (Hrc : ContextItem.effInterestRate c = rate).
  { rewrite Hctx. reflexivity. }
  assert (Hty : ContextItem.repaymentType c = interestOnly).
  { rewrite Hctx. exact Hio. }
  assert (Hnone : ContextItem.effExtraRepayment c = None
                  /\ ContextItem.lumpSum c = None
                  /\ ContextItem.offset c = None
                  /\ ContextItem.fee c = None).
  { rewrite Hctx. repeat split. }
  destruct Hnone as (Hex & Hlu & Hof & Hfe).
  rewrite Hs in Hrep, Hpp, Hpb, Hra.
  rewrite Hof in Hip. rewrite Hex, Hlu, Hof in Hpp. rewrite Hex, Hlu, Hof in Hpb.
  rewrite Hex, Hlu, Hof, Hfe in Hra.
  cbn [orZero negb andb] in Hrep, Hip, Hpp, Hpb, Hra.
  rewrite Hrpc, Hrc, Qeq_bool_refl, Hty in Hrep.
  cbn [negb orb] in Hrep.
  change (String.eqb interestOnly interestOnly) with true in Hrep.
  assert (Hopen : ContextItem.principal c == P).
  { rewrite Hp. exact Hbpa. }
  assert (Hsched : ContextItem.repayment c == P * rate).
  { destruct k as [|k].
    - change (Z.of_nat 1 =? 1)%Z with true in Hrep. cbn [orb] in Hrep.
      rewrite Hrep, Hopen. reflexivity.
    - replace (Z.of_nat (S (S k)) =? 1)%Z with false in Hrep
        by (symmetry; apply Z.eqb_neq; lia).
      cbn [orb] in Hrep. rewrite Hrep. apply Hkpc. lia. }
  rewrite Hrc in Hip, Hpp, Hpb, Hra.
  set (ip := Qmax ((ContextItem.principal c - 0) * rate) 0) in *.
  assert (Hip' : ip == P * rate).
  { unfold ip. rewrite Q.max_l; [rewrite Hopen; ring|]. rewrite Hopen. nra. }
  assert (Hno : Qgt_bool (ContextItem.repayment c + 0 + 0) (ContextItem.principal c)
                = false).
  { apply Qgt_bool_false. rewrite Hsched, Hopen. nra. }
  rewrite Hno in Hpp, Hpb, Hra.
  split; [exact Hrc|]. split.
  + rewrite Hpb, Hsched, Hip', Hopen. ring.
  + intros _. split; [exact Hsched|]. split; [|split].
    * rewrite Hra, Hsched. ring.
    * rewrite Hip. exact Hip'.
    * rewrite Hpp, Hsched, Hip'. ring.
Qed.

(** X9: an interest-only loan without operators, of positive principal at a
    per-period rate between 0 and 1, runs its full term: every period's
    repayment and interest paid are [principal * effInterestRate], no
    principal is paid and the balance stays the principal. *)
Theorem interest_only_schedule (e : Engine) (r : CalcResult) :
  (forall period, getOperatorsAt period = []) ->
  isSavingsMode e = false ->
  BaseContext.repaymentType (context e) = interestOnly ->
  0 < BaseContext.principal (context e) ->
  0 <= BaseContext.effInterestRate (context e) <= 1 ->
  calculate e = Return r ->
  length (res_amortizationList r)
  = S (Z.to_nat (Qfloor (BaseContext.effTerm (context e))))
  /\ forall (i : nat) (a : AmortizationItem.t),
       nth_error (res_amortizationList r) (S i) = Some a ->
       AmortizationItem.repayment a
       == BaseContext.principal (context e)
          * BaseContext.effInterestRate (context e)
       /\ AmortizationItem.interestPaid a
          == BaseContext.principal (context e)
             * BaseContext.effInterestRate (context e)
       /\ AmortizationItem.principalPaid a == 0
       /\ AmortizationItem.principalBalance a
          == BaseContext.principal (context e).
Proof.
intros Hops Hs Hio Hpv Hrate Hr.
destruct (calculate_spec _ _ Hr) as (e2 & _ & Hf & ->).
pose proof (final_state_inv _ _ Hf) as Hi.
pose proof (inv_context _ _ _ Hi) as Hx. cbn [initial_state context] in Hx.
pose proof (inv_length _ _ _ Hi) as Hl.
cbn [result_of res_amortizationList]. rewrite pass_length. split.
- destruct Hf as [[(a & Hla & Hp & H2) _]|[Ht Hinv]].
  + exfalso. apply paid_off_true in Hp as [_ Hp].
    apply last_opt_nth in Hla.
    destruct (nth_error (contextList e2) (pred (length (amortizationList e2))))
      as [c|] eqn:Ec; [|apply nth_error_None in Ec; lia].
    destruct (interest_only_entries e e2 _ Hops Hs Hio Hpv Hrate Hi _ _ _ Ec Hla)
      as (_ & Hb & _).
    rewrite Hb in Hp. lra.
  + rewrite (full_term_length _ _ _ Hinv Ht), Hx. reflexivity.
- intros i a' Ha'. apply pass_nth in Ha' as (a & Ha & ->).
  cbn [AmortizationItem.with_interestBalance AmortizationItem.repayment
    AmortizationItem.interestPaid AmortizationItem.principalPaid
    AmortizationItem.principalBalance].
  destruct (nth_error (contextList e2) (S i)) as [c|] eqn:Ec.
  + destruct (interest_only_entries e e2 _ Hops Hs Hio Hpv Hrate Hi _ _ _ Ec Ha)
      as (_ & Hb & Hrest).
    destruct (Hrest ltac:(lia)) as (_ & H1 & H2 & H3).
    repeat split; assumption.
  + apply nth_error_None in Ec. apply nth_error_lt in Ha. lia.
Qed.

(** X10: a loan of zero principal. Without operators, with [effTerm >= 1]
    and a scheduled repayment for period 1 that is not negative, the run
    computes period 1, where nothing is repaid and no interest is paid, and
    stops there: the lists hold the entries of periods 0 and 1. *)
Theorem zero_principal_stops (e : Engine) (r : CalcResult) :
  (forall period, getOperatorsAt period = []) ->
  isSavingsMode e = false ->
  BaseContext.principal (context e) == 0 ->
  1 <= BaseContext.effTerm (context e) ->
  0 <= __calculateRepayment 1 (merge_context (JsInt 1) (context e)) ->
  calculate e = Return r ->
  length (res_amortizationList r) = 2%nat
  /\ exists a : AmortizationItem.t,
       nth_error (res_amortizationList r) 1 = Some a
       /\ AmortizationItem.repayment a == 0
       /\ AmortizationItem.interestPaid a == 0
       /\ AmortizationItem.principalPaid a == 0
       /\ AmortizationItem.principalBalance a == 0.
Proof.
intros Hops Hs Hpv Hterm Hsched Hr.
destruct (calculate_spec _ _ Hr) as (e2 & _ & Hf & ->).
pose proof (final_state_inv _ _ Hf) as Hi.
pose proof (inv_mode _ _ _ Hi) as Hm. cbn [initial_state isSavingsMode] in Hm.
pose proof (inv_context _ _ _ Hi) as Hx. cbn [initial_state context] in Hx.
pose proof (inv_length _ _ _ Hi) as Hl.
pose proof (first_period_computed _ _ Hf Hterm) as H2.
pose proof (inv_first_context _ _ _ Hi) as Ec0.
pose proof (inv_first_amortization _ _ _ Hi) as Ea0.
cbn [initial_state contextList amortizationList nth_error] in Ec0, Ea0.
destruct (nth_error (contextList e2) 1) as [c|] eqn:Ec;
  [|apply nth_error_None in Ec; lia].
destruct (nth_error (amortizationList e2) 1) as [a|] eqn:Ea;
  [|apply nth_error_None in Ea; lia].
pose proof (inv_linked _ _ _ Hi 0%nat _ c _ a Ec0 Ea0 Ec Ea) as He.
rewrite Hm, Hx in He.
pose proof (entry_context_plain _ _ _ _ _ _ _ (Hops _) He) as Hctx.
cbn [AmortizationItem.principalBalance] in Hctx.
pose proof (entry_repayment _ _ _ _ _ _ _ He) as Hrep.
destruct (entry_amortization _ _ _ _ _ _ _ He) as (Hp & Hip & Hpp & Hpb & Hra).
cbn [AmortizationItem.principalBalance] in Hp.
assert (Hfields : ContextItem.effInterestRate c
                  = BaseContext.effInterestRate (context e)
                  /\ ContextItem.repaymentType c
                     = BaseContext.repaymentType (context e)
                  /\ ContextItem.effTerm c = BaseContext.effTerm (context e)
                  /\ ContextItem.effExtraRepayment c = None
                  /\ ContextItem.lumpSum c = None
                  /\ ContextItem.offset c = None
                  /\ ContextItem.fee c = None).
{ rewrite Hctx. repeat split. }
destruct Hfields as (Hrc & Hty & Htc & Hex & Hlu & Hof & Hfe).
rewrite Hs in Hrep, Hpp, Hpb, Hra.
rewrite Hof in Hip. rewrite Hex, Hlu, Hof in Hpp. rewrite Hex, Hlu, Hof in Hpb.
rewrite Hex, Hlu, Hof, Hfe in Hra.
cbn [orZero negb andb] in Hrep, Hip, Hpp, Hpb, Hra.
change (Z.of_nat 1 =? 1)%Z with true in Hrep. cbn [orb] in Hrep.
rewrite Hp, Hrc, Hty, Htc in Hrep.
assert (Hnn : 0 <= ContextItem.repayment c).
{ rewrite Hrep. exact Hsched. }
assert (Hopen : ContextItem.principal c == 0).
{ rewrite Hp. exact Hpv. }
set (ip := Qmax ((ContextItem.principal c - 0) * ContextItem.effInterestRate c) 0)
  in *.
assert (Hip' : ip == 0).
{ unfold ip. rewrite Hopen. apply Q.max_r. lra. }
assert (Hpaid :
  (if Qgt_bool (ContextItem.repayment c + 0 + 0) (ContextItem.principal c)
   then ContextItem.principal c + ip
   else ContextItem.repayment c + 0 + 0) == 0).
{ destruct (Qgt_bool _ _) eqn:E.
  - rewrite Hopen, Hip'. ring.
  - apply Qgt_bool_false in E. rewrite Hopen in E. lra. }
set (paid := if Qgt_bool (ContextItem.repayment c + 0 + 0)
                  (ContextItem.principal c)
             then ContextItem.principal c + ip
             else ContextItem.repayment c + 0 + 0) in *.
assert (Hbal : AmortizationItem.principalBalance a == 0).
{ rewrite Hpb, Hpaid, Hip', Hopen. ring. }
cbn [result_of res_amortizationList]. rewrite pass_length. split.
- apply (nonpositive_is_last e e2 0 a Hf Hs Ea). rewrite Hbal. lra.
- destruct (pass_nth_inv (isSavingsMode e2) _
              (starting_interestBalance (isSavingsMode e2) (amortizationList e2))
              _ _ Ea) as [v Hv].
  eexists. split; [exact Hv|].
  cbn [AmortizationItem.with_interestBalance AmortizationItem.repayment
    AmortizationItem.interestPaid AmortizationItem.principalPaid
    AmortizationItem.principalBalance].
  split; [rewrite Hra, Hpaid; ring|].
  split; [rewrite Hip; exact Hip'|].
  split; [rewrite Hpp, Hpaid, Hip'; ring|exact Hbal].
Qed.

(** One pass through the loop body on two engines in step. *)
Lemma loop_body_in_step (v : Q) (period : Z) (s s' : Engine)
  (c : ContextItem.t) (a : AmortizationItem.t) (b : bool) :
  (forall p, getOperatorsAt p = []) ->
  same_but_repayment v s s' ->
  (length (contextList s) = 1%nat -> period = 1%Z) ->
  loop_body period s = Return (push c a s, b) ->
  loop_body period s' = Return (push c a s', b).
Proof.
intros Hops (Hs & Hs' & Hx & Ha & Ht & c0 & rest & Hcl & Hcl') Hone.
destruct s as [sm ctx cl al t]. destruct s' as [sm' ctx' cl' al' t'].
cbn [isSavingsMode context contextList amortizationList totals] in *.
subst sm sm' ctx' al' t' cl cl'.
unfold loop_body, __calculateContextAt, __calculateAmortizationAt, push.
cbn [isSavingsMode context contextList amortizationList totals].
rewrite Hops.
destruct (last_opt al) as [pa|]; [|discriminate].
cbn [new_ContextItem new_AmortizationItem bind SummaryItem JsInt isUndefined
  isNaN process_all fold_left negb andb].
destruct rest as [|c1 rest].
- rewrite (Hone eq_refl).
  cbn [last_opt rev app Z.eqb Pos.eqb orb].
  cbn iota zeta. intros H. injection H as Hc Hal Hb.
  first [apply app_inj_tail in Hc as [_ <-] | rewrite <- Hc].
  apply app_inj_tail in Hal as [_ <-].
  subst b. reflexivity.
- rewrite !last_opt_cons.
  destruct (last_opt (c1 :: rest)) as [pc|]; [|discriminate].
  cbn iota zeta. intros H. injection H as Hc Hal Hb.
  first [apply app_inj_tail in Hc as [_ <-] | rewrite <- Hc].
  apply app_inj_tail in Hal as [_ <-].
  subst b. reflexivity.
Qed.

Lemma calculate_loop_in_step (v : Q) (fuel : nat) :
  (forall p, getOperatorsAt p = []) ->
  forall (period : Z) (s s' t : Engine),
    same_but_repayment v s s' ->
    (length (contextList s) = 1%nat -> period = 1%Z) ->
    calculate_loop fuel period s = Return t ->
    exists t', calculate_loop fuel period s' = Return t'
               /\ same_but_repayment v t t'.
Proof.
intros Hops. induction fuel as [|fuel IH]; intros period s s' t Hrel Hone H;
  [discriminate|].
simpl in H |- *.
assert (Hterm : BaseContext.effTerm (context s') = BaseContext.effTerm (context s)).
{ destruct Hrel as (_ & _ & -> & _). reflexivity. }
rewrite Hterm.
destruct (Qle_bool (inject_Z period) (BaseContext.effTerm (context s)));
  [|injection H as <-; eauto].
unfold bind in H.
destruct (loop_body period s) as [[e1 b]| |] eqn:Eb; try discriminate.
destruct (loop_body_shape _ _ _ _ Eb) as (c & a & -> & ->).
rewrite (loop_body_in_step v _ _ _ _ _ _ Hops Hrel Hone Eb). cbn [bind].
assert (Hp : paid_off s' a = paid_off s a).
{ unfold paid_off. destruct Hrel as (-> & -> & _). reflexivity. }
assert (Hrel' : same_but_repayment v (push c a s) (push c a s')).
{ destruct Hrel as (Hs & Hs' & Hx & Ha & Ht & c0 & rest & Hcl & Hcl').
  unfold same_but_repayment, push.
  cbn [isSavingsMode context contextList amortizationList totals].
  repeat split; try assumption; [now rewrite Ha|].
  exists c0, (rest ++ [c]). rewrite Hcl, Hcl'. split; reflexivity. }
destruct (paid_off s a) eqn:Ep.
- injection H as <-. eauto.
- apply (IH _ _ _ _ Hrel'); [|exact H].
  cbn [push contextList]. rewrite length_app. simpl. intros E.
  destruct Hrel as (_ & _ & _ & _ & _ & c0 & rest & Hcl & _).
  rewrite Hcl in E. simpl in E. lia.
Qed.

(** X11: in loan mode the configured [repayment] is never used. Without
    operators, a run on the same base context with any other configured
    repayment returns the same amortization list, the same totals and the
    same contexts from period 1 on. *)
Theorem configured_repayment_unused_in_loan_mode (e : Engine) (v : Q)
  (r : CalcResult) :
  (forall p, getOperatorsAt p = []) ->
  isSavingsMode e = false ->
  calculate e = Return r ->
  exists r' : CalcResult,
    calculate (mkEngine false (base_with_repayment v (context e))
                 (contextList e) (amortizationList e) (totals e))
    = Return r'
    /\ res_amortizationList r' = res_amortizationList r
    /\ res_totals r' = res_totals r
    /\ tl (res_contextList r') = tl (res_contextList r).
Proof.
intros Hops Hs. unfold calculate, calculate_state.
rewrite !startCalculation_initial. cbn [bind].
destruct (calculate_loop (loop_fuel (initial_state e)) 1 (initial_state e))
  as [t| |] eqn:El; try discriminate.
assert (Hrel : same_but_repayment v (initial_state e)
                 (initial_state
                    (mkEngine false (base_with_repayment v (context e))
                       (contextList e) (amortizationList e) (totals e)))).
{ unfold same_but_repayment, initial_state.
  cbn [isSavingsMode context contextList amortizationList totals].
  repeat split; try assumption.
  eexists _, _. split; reflexivity. }
destruct (calculate_loop_in_step v _ Hops 1 _ _ t Hrel (fun _ => eq_refl) El)
  as (t' & El' & Ht).
change (loop_fuel (initial_state
          (mkEngine false (base_with_repayment v (context e))
             (contextList e) (amortizationList e) (totals e))))
  with (loop_fuel (initial_state e)).
rewrite El'. cbn [bind].
pose proof (calculate_loop_run _ _ _ _ El) as Hrun.
pose proof (loop_run_inv (initial_state e) _ _ _ Hrun eq_refl (initial_inv e)) as Hf.
pose proof (final_nonempty _ _ Hf) as Hn.
destruct Ht as (Hm & Hm' & Hx & Ha & Htot & c0 & rest & Hcl & Hcl').
rewrite (endCalculation_eq t) by exact Hn.
rewrite (endCalculation_eq t') by (rewrite Ha; exact Hn).
cbn [bind totals contextList amortizationList].
intros [= <-]. eexists. split; [reflexivity|].
cbn [res_amortizationList res_totals res_contextList].
rewrite Ha, Hm, Hm', Hcl, Hcl'. repeat split.
Qed.

End LoanCalculatorEngine.

(** ** The annuity formula *)

Section Annuity.

Variable rate : Q.
Hypothesis rate_pos : 0 < rate.

Lemma discount_0 : discount rate 0 == 1.
Proof. reflexivity. Qed.

Lemma discount_S (m : nat) :
  (1 + rate) * discount rate (S m) == discount rate m.
Proof.
unfold discount.
assert (Hq : ~ 1 + rate == 0) by lra.
replace (- Z.of_nat (S m))%Z with (- Z.of_nat m + -1)%Z by lia.
rewrite Qpower_plus by exact Hq.
change (Qpower (1 + rate) (-1)) with (/ (1 + rate)).
field. exact Hq.
Qed.

Lemma discount_pos (m : nat) : 0 < discount rate m.
Proof. unfold discount. apply Qpower_0_lt. lra. Qed.

Lemma discount_lt_1 (m : nat) : (1 <= m)%nat -> discount rate m < 1.
Proof.
induction m as [|m IH]; intros H; [lia|].
pose proof (discount_S m) as HS. pose proof (discount_pos (S m)) as Hp.
destruct m as [|m].
- rewrite discount_0 in HS. nra.
- assert (Hm : discount rate (S m) < 1) by (apply IH; lia). nra.
Qed.

Lemma discount_le_two (m : nat) :
  (2 <= m)%nat -> (1 + rate) * (1 + rate) * discount rate m <= 1.
Proof.
intros H. destruct m as [|[|m]]; try lia.
pose proof (discount_S (S m)) as H1. pose proof (discount_S m) as H2.
pose proof (discount_pos m) as Hp.
assert (Hm : discount rate m <= 1).
{ destruct m as [|m]; [rewrite discount_0; lra|].
  apply Qlt_le_weak, discount_lt_1. lia. }
setoid_replace ((1 + rate) * (1 + rate) * discount rate (S (S m)))
  with (discount rate m); [exact Hm|].
rewrite <- H2, <- H1. ring.
Qed.

Variable pv : Q.
Variable n : nat.
Hypothesis n_pos : (1 <= n)%nat.

Lemma payment_discount : pv * rate == (level_payment pv rate n) * (1 - discount rate n).
Proof.
unfold level_payment, annuity. fold (discount rate n).
pose proof (discount_lt_1 n n_pos). field. lra.
Qed.

(** The balance after [k] payments, against the discount factor of the
    periods left. *)
Lemma balance_discount (k : nat) :
  (k <= n)%nat ->
  balance_after pv rate (level_payment pv rate n) k * rate
  == (level_payment pv rate n) * (1 - discount rate (n - k)).
Proof.
induction k as [|k IH]; intros Hk.
- simpl. rewrite Nat.sub_0_r. apply payment_discount.
- simpl.
  assert (IH' := IH ltac:(lia)).
  replace (n - k)%nat with (S (n - S k)) in IH' by lia.
  pose proof (discount_S (n - S k)) as HS.
  setoid_replace ((balance_after pv rate (level_payment pv rate n) k * (1 + rate) - (level_payment pv rate n)) * rate)
    with ((1 + rate) * (balance_after pv rate (level_payment pv rate n) k * rate) - (level_payment pv rate n) * rate)
    by ring.
  rewrite IH'.
  setoid_replace ((1 + rate) * ((level_payment pv rate n) * (1 - discount rate (S (n - S k)))))
    with ((level_payment pv rate n) * ((1 + rate) - (1 + rate) * discount rate (S (n - S k))))
    by ring.
  rewrite HS. ring.
Qed.

(** Recomputing the annuity from a later balance over the periods left
    gives the same (level_payment pv rate n). *)
Lemma annuity_recomputed (k : nat) :
  (k < n)%nat ->
  annuity (balance_after pv rate (level_payment pv rate n) k) rate (Z.of_nat (n - k)) == (level_payment pv rate n).
Proof.
intros Hk. unfold annuity at 1. fold (discount rate (n - k)).
rewrite (balance_discount k) by lia.
pose proof (discount_lt_1 (n - k) ltac:(lia)). field. lra.
Qed.

Hypothesis pv_pos : 0 < pv.

Lemma payment_pos : 0 < level_payment pv rate n.
Proof.
pose proof payment_discount as H. pose proof (discount_lt_1 n n_pos) as Hd.
assert (H0 : 0 < pv * rate) by nra.
rewrite H in H0.
destruct (Qlt_le_dec 0 (level_payment pv rate n)) as [Hp|Hp]; [exact Hp|].
exfalso. nra.
Qed.

Lemma balance_pos (k : nat) :
  (k < n)%nat -> 0 < balance_after pv rate (level_payment pv rate n) k.
Proof.
intros Hk. pose proof (balance_discount k ltac:(lia)) as H.
pose proof (discount_lt_1 (n - k) ltac:(lia)) as Hd.
pose proof payment_pos as Hp.
assert (H0 : 0 < level_payment pv rate n * (1 - discount rate (n - k))) by nra.
rewrite <- H in H0.
destruct (Qlt_le_dec 0 (balance_after pv rate (level_payment pv rate n) k))
  as [Hb|Hb]; [exact Hb|].
exfalso. nra.
Qed.

(** With two periods or more to go and [rate * (1 + rate) <= 1], the level
    payment does not exceed the balance. *)
Lemma payment_le_balance (k : nat) :
  rate * (1 + rate) <= 1 ->
  (k + 2 <= n)%nat ->
  level_payment pv rate n <= balance_after pv rate (level_payment pv rate n) k.
Proof.
intros Hr Hk. pose proof (balance_discount k ltac:(lia)) as H.
pose proof (discount_le_two (n - k) ltac:(lia)) as Hd.
pose proof (discount_pos (n - k)) as Hd0.
pose proof payment_pos as Hp.
assert (Hd1 : discount rate (n - k) <= 1 - rate).
{ destruct (Qlt_le_dec (1 - rate) (discount rate (n - k))) as [Hc|Hc]; [|exact Hc].
  exfalso.
  assert (H1 : (1 + rate) * (1 + rate) * (1 - rate)
               < (1 + rate) * (1 + rate) * discount rate (n - k)).
  { apply Qmult_lt_l; [nra|exact Hc]. }
  assert (H2 : 1 <= (1 + rate) * (1 + rate) * (1 - rate)).
  { setoid_replace ((1 + rate) * (1 + rate) * (1 - rate))
      with (1 + rate * (1 - rate * (1 + rate))) by ring.
    nra. }
  lra. }
assert (H3 : level_payment pv rate n * rate
             <= balance_after pv rate (level_payment pv rate n) k * rate).
{ rewrite H. nra. }
destruct (Qlt_le_dec (balance_after pv rate (level_payment pv rate n) k)
            (level_payment pv rate n)) as [Hc|Hc]; [|exact Hc].
exfalso. nra.
Qed.

(** In the last period the level payment is the balance plus its
    interest, and more than the balance. *)
Lemma payment_last :
  balance_after pv rate (level_payment pv rate n) (n - 1) * (1 + rate)
  == level_payment pv rate n.
Proof.
pose proof (balance_discount (n - 1) ltac:(lia)) as H.
replace (n - (n - 1))%nat with 1%nat in H by lia.
pose proof (discount_S 0) as HS. rewrite discount_0 in HS.
assert (Hq : ~ 1 + rate == 0) by lra.
assert (Hd : discount rate 1 == / (1 + rate)).
{ apply (Qmult_inj_l _ _ (1 + rate)); [exact Hq|].
  rewrite HS. field. exact Hq. }
rewrite Hd in H.
assert (Hb : balance_after pv rate (level_payment pv rate n) (n - 1)
             == level_payment pv rate n / (1 + rate)).
{ apply (Qmult_inj_r _ _ rate); [lra|]. rewrite H. field. exact Hq. }
rewrite Hb. field. exact Hq.
Qed.

End Annuity.

(** ** The legacy engine against the present one *)

Lemma annuity_comp (pv pv' rate rate' : Q) (n : Z) :
  pv == pv' -> rate == rate' -> annuity pv rate n == annuity pv' rate' n.
Proof. intros H1 H2. unfold annuity. now rewrite H1, H2. Qed.

Lemma annuity_pmt_standard : standard_pmt annuity_pmt.
Proof.
intros pv rate nper n Hr Hn Hnper. unfold annuity_pmt.
rewrite (Qfloor_comp _ _ Hnper), Qfloor_Z. reflexivity.
Qed.

Lemma Qmax_nonneg (x : Q) : 0 <= x -> Qmax x 0 == x.
Proof. intros H. apply Q.max_l. exact H. Qed.

Section Refinement.

Variable pmt : Q -> Q -> Q -> Q.
Hypothesis pmt_standard : standard_pmt pmt.

Variable getOperatorsAt : Z -> list Operator.
Hypothesis no_operators : forall period, getOperatorsAt period = [].

Variable n : nat.
Hypothesis n_pos : (1 <= n)%nat.

Variable pv rate : Q.
Hypothesis pv_pos : 0 < pv.
Hypothesis rate_pos : 0 < rate.
Hypothesis rate_bound : n = 1%nat \/ rate * (1 + rate) <= 1.

Lemma schedule_step (k : nat) (opening scheduled : Q) :
  (k < n)%nat ->
  opening == schedule_balance pv rate n k ->
  scheduled == level_payment pv rate n ->
  Qmax ((opening - 0) * rate) 0 == schedule_balance pv rate n k * rate
  /\ (if Qgt_bool (scheduled + 0 + 0) opening
      then opening + Qmax ((opening - 0) * rate) 0
      else scheduled + 0 + 0) == level_payment pv rate n.
Proof.
intros Hk Ho Hs.
pose proof (balance_pos rate rate_pos pv n n_pos pv_pos k Hk) as Hb.
fold (schedule_balance pv rate n k) in Hb.
assert (Hi : Qmax ((opening - 0) * rate) 0 == schedule_balance pv rate n k * rate).
{ rewrite Qmax_nonneg; [rewrite Ho; ring|]. rewrite Ho. nra. }
split; [exact Hi|].
destruct (Qgt_bool (scheduled + 0 + 0) opening) eqn:E.
- apply Qgt_bool_true in E. rewrite Hi.
  destruct (Nat.eq_dec (S k) n) as [Hn|Hn].
  + pose proof (payment_last rate rate_pos pv n n_pos) as Hl.
    replace (n - 1)%nat with k in Hl by lia.
    fold (schedule_balance pv rate n k) in Hl. rewrite Ho, <- Hl. ring.
  + exfalso. destruct rate_bound as [H1|Hr]; [lia|].
    pose proof (payment_le_balance rate rate_pos pv n n_pos pv_pos k Hr
                  ltac:(lia)) as Hle.
    fold (schedule_balance pv rate n k) in Hle. rewrite Ho, Hs in E. lra.
- rewrite Hs. ring.
Qed.

(** *** The present engine follows the schedule *)

Variable e : Engine.
Hypothesis loan_mode : isSavingsMode e = false.
Hypothesis principal_and_interest :
  BaseContext.repaymentType (context e) = principalAndInterest.
Hypothesis term_n : BaseContext.effTerm (context e) == inject_Z (Z.of_nat n).
Hypothesis rate_eq : BaseContext.effInterestRate (context e) == rate.
Hypothesis pv_eq : BaseContext.principal (context e) == pv.

(** Without operators the context of a period is the base context with
    the opening balance and the scheduled repayment. *)
Lemma entry_context_no_operators (period : Z) (pc c : ContextItem.t)
  (pa a : AmortizationItem.t) :
  period_entry pmt getOperatorsAt (isSavingsMode e) (context e) period pc pa c a ->
  c = ContextItem.with_repayment (ContextItem.repayment c)
        (ContextItem.with_principal (AmortizationItem.principalBalance pa)
           (merge_context (JsInt period) (context e))).
Proof.
unfold period_entry, loop_body, __calculateContextAt, __calculateAmortizationAt.
rewrite no_operators.
cbn [new_ContextItem new_AmortizationItem bind SummaryItem JsInt isUndefined
  isNaN last_opt rev app amortizationList contextList isSavingsMode context
  totals process_all fold_left].
intros [b H].
match type of H with
| context [if isSavingsMode e then (?x, ?y, ?z) else ?B] =>
    destruct (if isSavingsMode e then (x, y, z) else B) as [[r pp] pb]
end.
injection H as Hc _ _. rewrite <- Hc. reflexivity.
Qed.

Lemma entries_on_schedule (e2 : Engine) (u : nat) :
  run_inv pmt getOperatorsAt (initial_state e) e2 u ->
  forall (k : nat) (c : ContextItem.t) (a : AmortizationItem.t),
    nth_error (contextList e2) k = Some c ->
    nth_error (amortizationList e2) k = Some a ->
    on_schedule e pv rate n k c a.
Proof.
intros Hi.
pose proof (inv_mode _ _ _ _ _ Hi) as Hm. cbn [initial_state isSavingsMode] in Hm.
pose proof (inv_context _ _ _ _ _ Hi) as Hx. cbn [initial_state context] in Hx.
pose proof (inv_length _ _ _ _ _ Hi) as Hl.
assert (Hbound : forall k, (S k < length (contextList e2))%nat -> (S k <= n)%nat).
{ intros k Hk. pose proof (inv_tested _ _ _ _ _ Hi ltac:(lia)) as Ht.
  apply loop_test_floor in Ht. rewrite Hx in Ht.
  rewrite (Qfloor_comp _ _ term_n), Qfloor_Z in Ht. lia. }
induction k as [|k IH]; intros c a Hc Ha.
- rewrite (inv_first_context _ _ _ _ _ Hi) in Hc.
  rewrite (inv_first_amortization _ _ _ _ _ Hi) in Ha.
  simpl in Hc, Ha. injection Hc as <-. injection Ha as <-.
  split; [reflexivity|]. split; [|lia].
  unfold schedule_balance. simpl. exact pv_eq.
- assert (Hlt : (S k < length (contextList e2))%nat) by (eapply nth_error_lt; eauto).
  destruct (nth_error (contextList e2) k) as [pc|] eqn:Epc;
    [|apply nth_error_None in Epc; lia].
  destruct (nth_error (amortizationList e2) k) as [pa|] eqn:Epa;
    [|apply nth_error_None in Epa; lia].
  destruct (IH pc pa eq_refl eq_refl) as (Hrpc & Hbpa & Hkpc).
  pose proof (inv_linked _ _ _ _ _ Hi k pc c pa a Epc Epa Hc Ha) as He.
  rewrite Hm, Hx in He.
  pose proof (entry_context_no_operators _ _ _ _ _ He) as Hctx.
  pose proof (entry_repayment _ _ _ _ _ _ _ _ _ He) as Hrep.
  destruct (entry_amortization _ _ _ _ _ _ _ _ _ He)
    as (Hp & Hip & Hpp & Hpb & Hra).
  assert (Hrc : ContextItem.effInterestRate c
                = BaseContext.effInterestRate (context e)).
  { rewrite Hctx. reflexivity. }
  assert (Hty : ContextItem.repaymentType c = principalAndInterest).
  { rewrite Hctx. exact principal_and_interest. }
  assert (Htc : ContextItem.effTerm c = BaseContext.effTerm (context e)).
  { rewrite Hctx. reflexivity. }
  assert (Hnone : ContextItem.effExtraRepayment c = None
                  /\ ContextItem.lumpSum c = None
                  /\ ContextItem.offset c = None
                  /\ ContextItem.fee c = None).
  { rewrite Hctx. repeat split. }
  destruct Hnone as (Hex & Hlu & Hof & Hfe).
  rewrite loan_mode in Hrep, Hpp, Hpb, Hra.
  rewrite Hof in Hip. rewrite Hex, Hlu, Hof in Hpp. rewrite Hex, Hlu, Hof in Hpb.
  rewrite Hex, Hlu, Hof, Hfe in Hra.
  cbn [orZero negb andb] in Hrep, Hip, Hpp, Hpb, Hra.
  rewrite Hrpc, Hrc, Qeq_bool_refl, Hty in Hrep.
  cbn [negb orb] in Hrep.
  change (String.eqb principalAndInterest interestOnly) with false in Hrep.
  assert (Hsched : ContextItem.repayment c == level_payment pv rate n).
  { destruct k as [|k].
    - change (Z.of_nat 1 =? 1)%Z with true in Hrep. cbn [orb] in Hrep.
      rewrite Hrep. rewrite Htc.
      rewrite (pmt_standard _ _ _ (Z.of_nat n)).
      + unfold level_payment. apply annuity_comp; [|exact rate_eq].
        rewrite Hp, Hbpa. reflexivity.
      + rewrite rate_eq. exact rate_pos.
      + lia.
      + rewrite term_n. change (inject_Z (Z.of_nat 1)) with 1. ring.
    - replace (Z.of_nat (S (S k)) =? 1)%Z with false in Hrep
        by (symmetry; apply Z.eqb_neq; lia).
      cbn [orb] in Hrep. rewrite Hrep. apply Hkpc. lia. }
  assert (Hopen : ContextItem.principal c == schedule_balance pv rate n k).
  { rewrite Hp. exact Hbpa. }
  pose proof (Hbound k Hlt) as Hkn.
  assert (Hstep :
    Qmax ((ContextItem.principal c - 0) * rate) 0
    == schedule_balance pv rate n k * rate
    /\ (if Qgt_bool (ContextItem.repayment c + 0 + 0) (ContextItem.principal c)
        then ContextItem.principal c
             + Qmax ((ContextItem.principal c - 0) * rate) 0
        else ContextItem.repayment c + 0 + 0) == level_payment pv rate n).
  { apply schedule_step; [lia|exact Hopen|exact Hsched]. }
  assert (Hmax : Qmax ((ContextItem.principal c - 0)
                       * ContextItem.effInterestRate c) 0
                 == Qmax ((ContextItem.principal c - 0) * rate) 0).
  { rewrite Hrc, rate_eq. reflexivity. }
  destruct Hstep as (Hs1 & Hs2).
  set (ip := Qmax ((ContextItem.principal c - 0)
                   * ContextItem.effInterestRate c) 0) in *.
  assert (Hip' : ip == schedule_balance pv rate n k * rate).
  { rewrite Hmax. exact Hs1. }
  assert (Hpaid :
    (if Qgt_bool (ContextItem.repayment c + 0 + 0) (ContextItem.principal c)
     then ContextItem.principal c + ip
     else ContextItem.repayment c + 0 + 0) == level_payment pv rate n).
  { destruct (Qgt_bool (ContextItem.repayment c + 0 + 0) (ContextItem.principal c));
      [rewrite Hmax|]; exact Hs2. }
  set (paid := if Qgt_bool (ContextItem.repayment c + 0 + 0)
                    (ContextItem.principal c)
               then ContextItem.principal c + ip
               else ContextItem.repayment c + 0 + 0) in *.
  split; [exact Hrc|]. split.
  + rewrite Hpb, Hpaid, Hip', Hopen. unfold schedule_balance. simpl. ring.
  + intros _. replace (S k - 1)%nat with k by lia.
    split; [exact Hsched|]. split; [|split].
    * rewrite Hra, Hpaid. ring.
    * rewrite Hip. exact Hip'.
    * rewrite Hpp, Hpaid, Hip'. reflexivity.
Qed.

Lemma present_engine_on_schedule (res : CalcResult) :
  calculate pmt getOperatorsAt e = Return res ->
  length (res_amortizationList res) = S n
  /\ forall (k : nat) (a : AmortizationItem.t),
       (1 <= k)%nat ->
       nth_error (res_amortizationList res) k = Some a ->
       AmortizationItem.period a = JsInt (Z.of_nat k)
       /\ AmortizationItem.repayment a == level_payment pv rate n
       /\ AmortizationItem.interestPaid a
          == schedule_balance pv rate n (k - 1) * rate
       /\ AmortizationItem.principalPaid a
          == level_payment pv rate n - schedule_balance pv rate n (k - 1) * rate
       /\ AmortizationItem.principalBalance a == schedule_balance pv rate n k.
Proof.
intros Hr. destruct (calculate_spec _ _ _ _ Hr) as (e2 & _ & Hf & ->).
pose proof (final_state_inv _ _ _ _ Hf) as Hi.
pose proof (inv_mode _ _ _ _ _ Hi) as Hm. cbn [initial_state isSavingsMode] in Hm.
pose proof (inv_context _ _ _ _ _ Hi) as Hx. cbn [initial_state context] in Hx.
pose proof (inv_length _ _ _ _ _ Hi) as Hl.
pose proof (inv_nonempty _ _ _ _ _ Hi) as Hn.
cbn [result_of res_amortizationList]. rewrite pass_length. split.
- destruct Hf as [[(a & Hla & Hp & H2) _]|[Ht Hinv]].
  + apply paid_off_true in Hp as [_ Hp].
    apply last_opt_nth in Hla.
    destruct (nth_error (contextList e2) (pred (length (amortizationList e2))))
      as [c|] eqn:Ec; [|apply nth_error_None in Ec; lia].
    destruct (entries_on_schedule _ _ Hi _ _ _ Ec Hla) as (_ & Hb & _).
    pose proof (inv_tested _ _ _ _ _ Hi ltac:(lia)) as Ht.
    apply loop_test_floor in Ht. rewrite Hx in Ht.
    rewrite (Qfloor_comp _ _ term_n), Qfloor_Z in Ht.
    destruct (Nat.eq_dec (length (amortizationList e2)) (S n)) as [E|NE];
      [exact E|exfalso].
    pose proof (balance_pos rate rate_pos pv n n_pos pv_pos
                  (pred (length (amortizationList e2))) ltac:(lia)) as Hpos.
    fold (schedule_balance pv rate n (pred (length (amortizationList e2)))) in Hpos.
    rewrite Hb in Hp. lra.
  + rewrite (full_term_length _ _ _ _ _ Hinv Ht), Hx.
    rewrite (Qfloor_comp _ _ term_n), Qfloor_Z. lia.
- intros k a' Hk Ha'. apply pass_nth in Ha' as (a & Ha & ->).
  cbn [AmortizationItem.with_interestBalance AmortizationItem.period
    AmortizationItem.repayment AmortizationItem.interestPaid
    AmortizationItem.principalPaid AmortizationItem.principalBalance].
  assert (Hlt : (k < length (amortizationList e2))%nat) by (eapply nth_error_lt; eauto).
  destruct (nth_error (contextList e2) k) as [c|] eqn:Ec;
    [|apply nth_error_None in Ec; lia].
  destruct (entries_on_schedule _ _ Hi _ _ _ Ec Ha) as (_ & Hb & Hrest).
  destruct (Hrest Hk) as (_ & H1 & H2 & H3).
  split; [|repeat split; assumption].
  pose proof (inv_aperiods _ _ _ _ _ Hi) as Hp.
  assert (Hq : nth_error (map AmortizationItem.period (amortizationList e2)) k
               = Some (AmortizationItem.period a)).
  { rewrite nth_error_map, Ha. reflexivity. }
  rewrite Hp, periods_nth in Hq by exact Hlt. congruence.
Qed.

(** *** The legacy engine follows the schedule *)

Variable frequency_year frequency_month : Q.
Variable getOperatorContextsAt : Z -> list LoanContext.options.
Hypothesis no_legacy_operators : forall period, getOperatorContextsAt period = [].

Variable lc : LoanContext.t.
Hypothesis legacy_term : LoanContext.getEffTerm lc == inject_Z (Z.of_nat n).
Hypothesis legacy_rate : LoanContext.getEffInterestRate lc == rate.
Hypothesis legacy_pv : LoanContext.principal lc == pv.

Lemma legacy_context_rate (period : Z) :
  LoanContext.getEffInterestRate
    (getContextAt frequency_year frequency_month getOperatorContextsAt lc period)
  = LoanContext.getEffInterestRate lc.
Proof.
unfold getContextAt. rewrite no_legacy_operators. reflexivity.
Qed.

Lemma legacy_step (k : nat) (opening : Q) :
  (k < n)%nat ->
  opening == schedule_balance pv rate n k ->
  let interestRate := LoanContext.getEffInterestRate lc in
  let pmt_ :=
    pmt opening interestRate
      (LoanContext.getEffTerm lc - inject_Z (Z.of_nat k + 1) + 1) in
  legacy_on_schedule pv rate n (S k)
    (LoanSummaryItem.mk (Z.of_nat k + 1) opening
       (opening - (pmt_ - opening * interestRate))
       (opening * interestRate) (pmt_ - opening * interestRate) pmt_).
Proof.
intros Hk Ho interestRate pmt_.
assert (Hp : pmt_ == level_payment pv rate n).
{ unfold pmt_. rewrite (pmt_standard _ _ _ (Z.of_nat (n - k))).
  - rewrite (annuity_comp _ (schedule_balance pv rate n k) _ rate);
      [|exact Ho|exact legacy_rate].
    apply annuity_recomputed; assumption.
  - unfold interestRate. rewrite legacy_rate. exact rate_pos.
  - lia.
  - rewrite legacy_term. rewrite !inject_Z_plus, Nat2Z.inj_sub by lia.
    unfold Zminus. rewrite inject_Z_plus, inject_Z_opp.
    change (inject_Z 1) with 1. ring. }
unfold legacy_on_schedule.
cbn [LoanSummaryItem.period LoanSummaryItem.pmt LoanSummaryItem.interestPaid
  LoanSummaryItem.principalPaid LoanSummaryItem.principalFinalBalance].
replace (S k - 1)%nat with k by lia.
split; [lia|]. split; [exact Hp|].
unfold interestRate. rewrite Hp, legacy_rate, Ho.
split; [reflexivity|]. split; [reflexivity|].
unfold schedule_balance. simpl. ring.
Qed.

Lemma legacy_loop_on_schedule (fuel : nat) :
  forall (k : nat) (l : list LoanSummaryItem.t) (prev : option LoanSummaryItem.t),
    length l = k -> (k <= n)%nat -> (n - k < fuel)%nat ->
    (k = 0%nat -> prev = None) ->
    (forall j s, nth_error l j = Some s -> legacy_on_schedule pv rate n (S j) s) ->
    exists l',
      legacy_loop frequency_year frequency_month pmt getOperatorContextsAt
        fuel lc (LoanContext.getEffTerm lc) (Z.of_nat k + 1) prev l
      = Return l'
      /\ length l' = n
      /\ forall j s, nth_error l' j = Some s -> legacy_on_schedule pv rate n (S j) s.
Proof.
induction fuel as [|fuel IH]; intros k l prev Hlen Hk Hf Hprev Hall; [lia|].
cbn [legacy_loop].
destruct (Nat.eq_dec k n) as [E|NE].
- assert (Ht : Qle_bool (inject_Z (Z.of_nat k + 1)) (LoanContext.getEffTerm lc)
               = false).
  { apply Qle_bool_false. rewrite legacy_term, <- Zlt_Qlt. lia. }
  rewrite Ht. exists l. split; [reflexivity|]. split; [lia|exact Hall].
- assert (Ht : Qle_bool (inject_Z (Z.of_nat k + 1)) (LoanContext.getEffTerm lc)
               = true).
  { apply Qle_bool_true. rewrite legacy_term, <- Zle_Qle. lia. }
  rewrite Ht. rewrite legacy_context_rate.
  set (prev' := if (1 <? Z.of_nat k + 1)%Z then last_opt l else prev).
  set (opening := match prev' with
                  | Some s => LoanSummaryItem.principalFinalBalance s
                  | None => LoanContext.principal lc
                  end).
  assert (Ho : opening == schedule_balance pv rate n k).
  { unfold opening, prev'. destruct k as [|k].
    - simpl. rewrite (Hprev eq_refl). exact legacy_pv.
    - replace (1 <? Z.of_nat (S k) + 1)%Z with true
        by (symmetry; apply Z.ltb_lt; lia).
      destruct (last_opt_nonempty l) as [s Hs]; [lia|].
      rewrite Hs. apply last_opt_nth in Hs. rewrite Hlen in Hs. simpl in Hs.
      apply Hall in Hs. apply Hs. }
  pose proof (legacy_step k opening ltac:(lia) Ho) as Hstep.
  cbv zeta in Hstep.
  replace (Z.of_nat k + 1 + 1)%Z with (Z.of_nat (S k) + 1)%Z by lia.
  apply IH.
  + rewrite length_app. simpl. lia.
  + lia.
  + lia.
  + intros H. discriminate.
  + intros j s Hj.
    destruct (Nat.lt_ge_cases j (length l)) as [Hlt|Hge].
    * rewrite nth_error_app1 in Hj by exact Hlt. now apply Hall.
    * rewrite nth_error_app2 in Hj by exact Hge.
      destruct (j - length l)%nat as [|d] eqn:Ed.
      -- simpl in Hj. injection Hj as <-.
         replace j with k by lia. exact Hstep.
      -- destruct d; discriminate.
Qed.

(** C10 (with the bound on the rate that the code needs): for a loan of
    positive principal at a positive per-period rate [rate] over a whole
    number [n >= 1] of periods, principal-and-interest repayments and no
    operator at any period, with [n = 1] or [rate * (1 + rate) <= 1], and
    for a [pmt] that computes the standard annuity payment, the legacy
    engine and the present engine, given the same principal, effective rate
    and effective term, both return, and for every period [1 .. n] they
    yield equal payment, interest paid, principal paid and closing
    balance. *)
Theorem legacy_and_present_agree :
  exists (res : CalcResult) (lres : LegacyResult),
    calculate pmt getOperatorsAt e = Return res
    /\ legacy_calculate frequency_year frequency_month pmt getOperatorContextsAt lc
       = Return lres
    /\ length (summaryList lres) = n
    /\ length (res_amortizationList res) = S n
    /\ forall k : nat,
         (1 <= k <= n)%nat ->
         exists (s : LoanSummaryItem.t) (a : AmortizationItem.t),
           nth_error (summaryList lres) (k - 1) = Some s
           /\ nth_error (res_amortizationList res) k = Some a
           /\ LoanSummaryItem.period s = Z.of_nat k
           /\ AmortizationItem.period a = JsInt (Z.of_nat k)
           /\ LoanSummaryItem.pmt s == AmortizationItem.repayment a
           /\ LoanSummaryItem.interestPaid s == AmortizationItem.interestPaid a
           /\ LoanSummaryItem.principalPaid s == AmortizationItem.principalPaid a
           /\ LoanSummaryItem.principalFinalBalance s
              == AmortizationItem.principalBalance a.
Proof.
destruct (calculate_returns pmt getOperatorsAt e) as [res Hres].
destruct (present_engine_on_schedule res Hres) as (Hlen & Hnew).
destruct (legacy_loop_on_schedule
            (S (Z.to_nat (Qfloor (LoanContext.getEffTerm lc)))) 0 [] None)
  as (l & Hl & Hln & Hold); try reflexivity; try lia.
{ rewrite (Qfloor_comp _ _ legacy_term), Qfloor_Z. lia. }
{ intros j s H. destruct j; discriminate. }
assert (Hred : exists t,
  legacy_reduce l = Return t).
{ unfold legacy_reduce. destruct l as [|x l]; [simpl in Hln; lia|]. eauto. }
destruct Hred as [t Ht].
exists res, (mkLegacyResult l t).
split; [exact Hres|]. split.
{ unfold legacy_calculate. change (Z.of_nat 0 + 1)%Z with 1%Z in Hl.
  rewrite Hl. cbn [bind]. rewrite Ht. reflexivity. }
split; [exact Hln|]. split; [exact Hlen|].
intros k Hk. cbn [summaryList].
destruct (nth_error l (k - 1)) as [s|] eqn:Es;
  [|apply nth_error_None in Es; lia].
destruct (nth_error (res_amortizationList res) k) as [a|] eqn:Ea;
  [|apply nth_error_None in Ea; lia].
exists s, a. split; [reflexivity|]. split; [reflexivity|].
destruct (Hnew k a ltac:(lia) Ea) as (Hp & H1 & H2 & H3 & H4).
pose proof (Hold _ _ Es) as (Gp & G1 & G2 & G3 & G4).
replace (S (k - 1)) with k in * by lia.
split; [exact Gp|]. split; [exact Hp|].
rewrite G1, G2, G3, G4, H1, H2, H3, H4. repeat split; reflexivity.
Qed.

End Refinement.

(** ** The properties on the sample inputs *)

(** The interest-only loan with its lump sum: the first period is clamped to
    the opening principal plus the interest. *)
Lemma loan_repayment_clamp_witness :
  exists (r : CalcResult) (c : ContextItem.t) (a : AmortizationItem.t),
    calculate annuity_pmt lump_sum_in_period_1 sample_interest_only_loan = Return r
    /\ nth_error (res_contextList r) 1 = Some c
    /\ nth_error (res_amortizationList r) 1 = Some a
    /\ exists repayment : Q,
         AmortizationItem.repayment a = repayment + orZero (ContextItem.fee c)
         /\ (ContextItem.principal c
             < ContextItem.repayment c + orZero (ContextItem.effExtraRepayment c)
               + orZero (ContextItem.lumpSum c) ->
             repayment = ContextItem.principal c + AmortizationItem.interestPaid a)
         /\ (ContextItem.repayment c + orZero (ContextItem.effExtraRepayment c)
             + orZero (ContextItem.lumpSum c) <= ContextItem.principal c ->
             repayment = ContextItem.repayment c
                         + orZero (ContextItem.effExtraRepayment c)
                         + orZero (ContextItem.lumpSum c))
         /\ AmortizationItem.principalPaid a
            = repayment - AmortizationItem.interestPaid a
         /\ AmortizationItem.principalBalance a
            = ContextItem.principal c - AmortizationItem.principalPaid a.
Proof.
eexists _, _, _.
split; [vm_compute; reflexivity|].
split; [reflexivity|]. split; [reflexivity|].
apply (loan_repayment_clamp annuity_pmt lump_sum_in_period_1
         sample_interest_only_loan _ ltac:(vm_compute; reflexivity) eq_refl 0%nat);
  reflexivity.
Defined.

(** C1 as stated fails on the same run: in period 1 the adjusted repayment,
    105, does not exceed [principal + interestPaid], 110, and yet the
    repayment before the fee is not 105 but 110. *)
Lemma clamp_above_principal_counterexample :
  exists (r : CalcResult) (c : ContextItem.t) (a : AmortizationItem.t),
    calculate annuity_pmt lump_sum_in_period_1 sample_interest_only_loan = Return r
    /\ nth_error (res_contextList r) 1 = Some c
    /\ nth_error (res_amortizationList r) 1 = Some a
    /\ let adjusted :=
         ContextItem.repayment c + orZero (ContextItem.effExtraRepayment c)
         + orZero (ContextItem.lumpSum c) in
       adjusted == 105
       /\ ContextItem.principal c + AmortizationItem.interestPaid a == 110
       /\ ~ (ContextItem.principal c + AmortizationItem.interestPaid a < adjusted)
       /\ AmortizationItem.repayment a - orZero (ContextItem.fee c) == 110
       /\ ~ (AmortizationItem.repayment a - orZero (ContextItem.fee c) == adjusted).
Proof.
eexists _, _, _.
split; [vm_compute; reflexivity|].
split; [reflexivity|]. split; [reflexivity|].
cbv zeta. repeat split; vm_compute; try reflexivity; intros H; discriminate H.
Qed.

Lemma scheduled_repayment_witness :
  exists (r : CalcResult) (pc c : ContextItem.t),
    calculate annuity_pmt no_operators_at sample_loan = Return r
    /\ nth_error (res_contextList r) 0 = Some pc
    /\ nth_error (res_contextList r) 1 = Some c
    /\ ContextItem.repayment c
       = annuity_pmt (ContextItem.principal c) (ContextItem.effInterestRate c)
           (ContextItem.effTerm c - inject_Z (Z.of_nat 1) + 1).
Proof.
eexists _, _, _.
split; [vm_compute; reflexivity|].
split; [reflexivity|]. split; [reflexivity|].
refine (proj1 (scheduled_repayment annuity_pmt no_operators_at sample_loan _
                 ltac:(vm_compute; reflexivity) 0%nat _ _ eq_refl eq_refl) _).
split; [reflexivity|]. left. reflexivity.
Defined.

Lemma early_termination_witness :
  exists r : CalcResult,
    calculate annuity_pmt no_operators_at sample_savings = Return r
    /\ length (res_amortizationList r) = 3%nat.
Proof.
eexists. split; [vm_compute; reflexivity|].
refine (proj1 (proj1 (proj2 (proj2
          (early_termination annuity_pmt no_operators_at sample_savings _
             ltac:(vm_compute; reflexivity)))) eq_refl)).
Defined.

Lemma totals_are_sums_witness :
  exists (r : CalcResult) (rep ip : Q) (a0 : AmortizationItem.t),
    calculate annuity_pmt no_operators_at sample_loan = Return r
    /\ totals_repayment r = Return rep
    /\ totals_interestPaid r = Return ip
    /\ rep == Qsum (map AmortizationItem.repayment (res_amortizationList r))
    /\ ip == Qsum (map AmortizationItem.interestPaid (res_amortizationList r))
    /\ nth_error (res_amortizationList r) 0 = Some a0
    /\ AmortizationItem.period a0 = JsInt 0
    /\ AmortizationItem.repayment a0 = 0
    /\ AmortizationItem.interestPaid a0 = 0.
Proof.
eexists.
destruct (totals_are_sums annuity_pmt no_operators_at sample_loan _
            ltac:(vm_compute; reflexivity)) as (rep & ip & a0 & H).
exists rep, ip, a0. split; [vm_compute; reflexivity|exact H].
Defined.

Lemma interest_balance_series_witness :
  exists r : CalcResult,
    calculate annuity_pmt no_operators_at sample_loan = Return r
    /\ exists z, last_opt (res_amortizationList r) = Some z
                 /\ AmortizationItem.interestBalance z == 0.
Proof.
eexists. split; [vm_compute; reflexivity|].
refine (proj2 (proj2 (interest_balance_series annuity_pmt no_operators_at
                        sample_loan _ ltac:(vm_compute; reflexivity))) eq_refl).
Defined.

Lemma period_guard_witness :
  throws (new_AmortizationItem JsUndefined)
  /\ returns (calculate annuity_pmt no_operators_at sample_zero_term).
Proof.
destruct (period_guard annuity_pmt no_operators_at sample_zero_term)
  as (Hg & Hr & _).
split; [|exact Hr].
apply (Hg JsUndefined (sample_context 0 principalAndInterest)); left; reflexivity.
Defined.

(** C6 as stated fails: [Infinity] is not a finite number, and both
    constructors accept it as a period. *)
Lemma infinite_period_counterexample :
  isFiniteNumber (JsNumber JsInfinity) = false
  /\ isUndefined (JsNumber JsInfinity) = false
  /\ returns (new_ContextItem (JsNumber JsInfinity)
                (sample_context 0 principalAndInterest))
  /\ returns (new_AmortizationItem (JsNumber JsInfinity))
  /\ ~ throws (new_ContextItem (JsNumber JsInfinity)
                 (sample_context 0 principalAndInterest))
  /\ ~ throws (new_AmortizationItem (JsNumber JsInfinity)).
Proof.
repeat split; try (eexists; reflexivity); intros [msg H]; discriminate H.
Qed.

Lemma fee_after_balance_witness :
  exists (c1 c2 : ContextItem.t) (a1 a2 : AmortizationItem.t) (repayment : Q),
    __calculateAmortizationAt annuity_pmt 1
      (ContextItem.with_fee (Some 5)
         (merge_context (JsInt 1) (sample_context 0 principalAndInterest)))
      (initial_state sample_loan)
    = Return (c1, a1)
    /\ __calculateAmortizationAt annuity_pmt 1
         (ContextItem.with_fee None
            (merge_context (JsInt 1) (sample_context 0 principalAndInterest)))
         (initial_state sample_loan)
       = Return (c2, a2)
    /\ AmortizationItem.interestPaid a1 = AmortizationItem.interestPaid a2
    /\ AmortizationItem.principalPaid a1 = AmortizationItem.principalPaid a2
    /\ AmortizationItem.principalBalance a1 = AmortizationItem.principalBalance a2
    /\ ContextItem.repayment c1 = ContextItem.repayment c2
    /\ AmortizationItem.repayment a1 = repayment + orZero (Some 5)
    /\ AmortizationItem.repayment a2 = repayment + orZero None.
Proof.
apply (fee_after_balance annuity_pmt 1
         (merge_context (JsInt 1) (sample_context 0 principalAndInterest))
         (initial_state sample_loan) (Some 5) None).
simpl. lia.
Defined.

Lemma lists_aligned_throughout_witness :
  exists (period : Z) (e : Engine) (r : CalcResult),
    reachable annuity_pmt no_operators_at sample_loan period e
    /\ calculate annuity_pmt no_operators_at sample_loan = Return r
    /\ res_contextList r = contextList e
    /\ res_amortizationList r = amortizationList e
    /\ length (contextList e) = length (amortizationList e).
Proof.
destruct (lists_aligned_throughout annuity_pmt no_operators_at sample_loan)
  as (Hall & period & e & r & Hreach & Hr & Hc & Ha).
exists period, e, r. repeat split; try assumption.
apply (Hall period e Hreach).
Defined.

Lemma no_period_when_term_below_one_witness :
  exists a0 : AmortizationItem.t,
    calculate annuity_pmt no_operators_at sample_zero_term
    = Return (mkResult (Some (SameAsItem 0))
                [merge_context (JsInt 0) (context sample_zero_term)] [a0])
    /\ AmortizationItem.period a0 = JsInt 0
    /\ AmortizationItem.repayment a0 = 0
    /\ AmortizationItem.interestPaid a0 = 0
    /\ AmortizationItem.principalPaid a0 = 0
    /\ AmortizationItem.interestBalance a0 == 0
    /\ AmortizationItem.principalBalance a0
       = BaseContext.principal (context sample_zero_term).
Proof.
apply (no_period_when_term_below_one annuity_pmt no_operators_at sample_zero_term).
reflexivity.
Defined.

Lemma legacy_and_present_agree_witness :
  exists (res : CalcResult) (lres : LegacyResult),
    calculate annuity_pmt no_operators_at sample_loan = Return res
    /\ legacy_calculate 1 1 annuity_pmt no_legacy_operators_at sample_legacy_context
       = Return lres
    /\ length (summaryList lres) = 2%nat
    /\ length (res_amortizationList res) = 3%nat
    /\ forall k : nat,
         (1 <= k <= 2)%nat ->
         exists (s : LoanSummaryItem.t) (a : AmortizationItem.t),
           nth_error (summaryList lres) (k - 1) = Some s
           /\ nth_error (res_amortizationList res) k = Some a
           /\ LoanSummaryItem.period s = Z.of_nat k
           /\ AmortizationItem.period a = JsInt (Z.of_nat k)
           /\ LoanSummaryItem.pmt s == AmortizationItem.repayment a
           /\ LoanSummaryItem.interestPaid s == AmortizationItem.interestPaid a
           /\ LoanSummaryItem.principalPaid s == AmortizationItem.principalPaid a
           /\ LoanSummaryItem.principalFinalBalance s
              == AmortizationItem.principalBalance a.
Proof.
apply (legacy_and_present_agree annuity_pmt annuity_pmt_standard
         no_operators_at (fun _ => eq_refl) 2%nat)
  with (pv := 100) (rate := 1 # 10);
  try reflexivity.
- lia.
- right. vm_compute. discriminate.
Defined.

(** C10 as stated fails at a steep rate: with 3 borrowed at 100% per period
    over two periods, the legacy engine asks 4 in period 1 and the present
    engine, whose scheduled 4 exceeds the opening principal 3, asks 6 and
    stops there. *)
Lemma steep_rate_counterexample :
  standard_pmt annuity_pmt
  /\ isSavingsMode steep_loan = false
  /\ BaseContext.repaymentType (context steep_loan) = principalAndInterest
  /\ 0 < BaseContext.principal (context steep_loan)
  /\ 0 < BaseContext.effInterestRate (context steep_loan)
  /\ BaseContext.effTerm (context steep_loan) == inject_Z 2
  /\ LoanContext.principal steep_legacy_context
     == BaseContext.principal (context steep_loan)
  /\ LoanContext.getEffInterestRate steep_legacy_context
     == BaseContext.effInterestRate (context steep_loan)
  /\ LoanContext.getEffTerm steep_legacy_context
     == BaseContext.effTerm (context steep_loan)
  /\ exists (res : CalcResult) (lres : LegacyResult)
            (s : LoanSummaryItem.t) (a : AmortizationItem.t),
       calculate annuity_pmt no_operators_at steep_loan = Return res
       /\ legacy_calculate 1 1 annuity_pmt no_legacy_operators_at
            steep_legacy_context = Return lres
       /\ nth_error (summaryList lres) 0 = Some s
       /\ nth_error (res_amortizationList res) 1 = Some a
       /\ LoanSummaryItem.pmt s == 4
       /\ AmortizationItem.repayment a == 6
       /\ ~ LoanSummaryItem.pmt s == AmortizationItem.repayment a
       /\ length (summaryList lres) = 2%nat
       /\ length (res_amortizationList res) = 2%nat.
Proof.
split; [exact annuity_pmt_standard|].
repeat (split; [reflexivity|]).
eexists _, _, _, _.
split; [vm_compute; reflexivity|]. split; [vm_compute; reflexivity|].
split; [reflexivity|]. split; [reflexivity|].
split; [reflexivity|]. split; [reflexivity|].
split; [vm_compute; intros H; discriminate H|].
split; reflexivity.
Qed.

(** ** Further properties of the legacy engine *)

Section LegacyFacts.

Variable frequency_year frequency_month : Q.
Variable pmt : Q -> Q -> Q -> Q.
Variable getOperatorContextsAt : Z -> list LoanContext.options.

Lemma legacy_opening_app (baseContext : LoanContext.t)
  (l : list LoanSummaryItem.t) (x : LoanSummaryItem.t) (j : nat) :
  (j <= length l)%nat ->
  legacy_opening baseContext (l ++ [x]) j = legacy_opening baseContext l j.
Proof.
intros Hj. destruct j as [|j]; [reflexivity|]. simpl.
rewrite nth_error_app1 by lia. reflexivity.
Qed.

Lemma legacy_opening_last (baseContext : LoanContext.t)
  (l : list LoanSummaryItem.t) (prev : option LoanSummaryItem.t) :
  (length l = 0%nat -> prev = None) ->
  match (if (1 <? Z.of_nat (length l) + 1)%Z then last_opt l else prev) with
  | Some s => LoanSummaryItem.principalFinalBalance s
  | None => LoanContext.principal baseContext
  end = legacy_opening baseContext l (length l).
Proof.
intros Hprev. destruct l as [|y l] using rev_ind.
- simpl. now rewrite Hprev.
- rewrite length_app. simpl length.
  replace (1 <? Z.of_nat (length l + 1) + 1)%Z with true
    by (symmetry; apply Z.ltb_lt; lia).
  rewrite last_opt_snoc. rewrite Nat.add_1_r. simpl.
  rewrite nth_error_app2 by lia. rewrite Nat.sub_diag. reflexivity.
Qed.

Lemma legacy_loop_shape (baseContext : LoanContext.t) (fuel : nat) :
  forall (l : list LoanSummaryItem.t) (prev : option LoanSummaryItem.t),
    (length l <= Z.to_nat (Qfloor (LoanContext.getEffTerm baseContext)))%nat ->
    (Z.to_nat (Qfloor (LoanContext.getEffTerm baseContext)) - length l < fuel)%nat ->
    (length l = 0%nat -> prev = None) ->
    legacy_chain frequency_year frequency_month pmt getOperatorContextsAt
      baseContext l ->
    exists l',
      legacy_loop frequency_year frequency_month pmt getOperatorContextsAt
        fuel baseContext (LoanContext.getEffTerm baseContext)
        (Z.of_nat (length l) + 1) prev l
      = Return l'
      /\ length l' = Z.to_nat (Qfloor (LoanContext.getEffTerm baseContext))
      /\ legacy_chain frequency_year frequency_month pmt getOperatorContextsAt
           baseContext l'.
Proof.
induction fuel as [|fuel IH]; intros l prev Hle Hf Hprev Hall; [lia|].
cbn [legacy_loop].
destruct (Qle_bool (inject_Z (Z.of_nat (length l) + 1))
            (LoanContext.getEffTerm baseContext)) eqn:Et.
- apply loop_test_floor in Et.
  rewrite (legacy_opening_last baseContext l prev Hprev).
  match goal with
  | |- context [legacy_loop _ _ _ _ fuel _ _ _ ?p (l ++ [?x])] =>
      set (item := x); set (prev' := p)
  end.
  replace (Z.of_nat (length l) + 1 + 1)%Z
    with (Z.of_nat (length (l ++ [item])) + 1)%Z
    by (rewrite length_app; cbn [length]; lia).
  apply IH.
  + rewrite length_app. cbn [length]. lia.
  + rewrite length_app. cbn [length]. lia.
  + rewrite length_app. cbn [length]. lia.
  + intros j s Hj.
    destruct (Nat.lt_ge_cases j (length l)) as [Hlt|Hge].
    * rewrite nth_error_app1 in Hj by exact Hlt.
      rewrite legacy_opening_app by lia. now apply Hall.
    * rewrite nth_error_app2 in Hj by exact Hge.
      destruct (j - length l)%nat as [|d] eqn:Ed; [|destruct d; discriminate].
      simpl in Hj. injection Hj as <-.
      assert (j = length l) by lia. subst j.
      rewrite legacy_opening_app by lia.
      replace (Z.of_nat (S (length l))) with (Z.of_nat (length l) + 1)%Z by lia.
      unfold legacy_item_ok, item.
      cbn [LoanSummaryItem.period LoanSummaryItem.pmt
        LoanSummaryItem.interestPaid LoanSummaryItem.principalPaid
        LoanSummaryItem.principalFinalBalance
        LoanSummaryItem.principalInitialBalance].
      repeat split.
- exists l. split; [reflexivity|]. split; [|exact Hall].
  assert (~ (Z.of_nat (length l) + 1
             <= Qfloor (LoanContext.getEffTerm baseContext))%Z).
  { intros H. apply loop_test_floor in H. congruence. }
  lia.
Qed.


(** X13: the legacy engine on a term of one period or more never stops
    early. It returns one summary item per period [1 .. floor effTerm]; each
    opens at the final balance of the one before (the principal for the
    first), pays [pmt] recomputed from that balance, the rate of the
    period's context and the periods left, splits it into interest
    [opening * rate] and principal, and closes at the opening balance minus
    the principal paid. *)
Theorem legacy_schedule_shape (baseContext : LoanContext.t) :
  1 <= LoanContext.getEffTerm baseContext ->
  exists res : LegacyResult,
    legacy_calculate frequency_year frequency_month pmt getOperatorContextsAt
      baseContext = Return res
    /\ length (summaryList res)
       = Z.to_nat (Qfloor (LoanContext.getEffTerm baseContext))
    /\ (1 <= length (summaryList res))%nat
    /\ forall (j : nat) (s : LoanSummaryItem.t),
         nth_error (summaryList res) j = Some s ->
         legacy_item_ok pmt (LoanContext.getEffTerm baseContext)
           (Z.of_nat (S j))
           (legacy_opening baseContext (summaryList res) j)
           (LoanContext.getEffInterestRate
              (getContextAt frequency_year frequency_month
                 getOperatorContextsAt baseContext (Z.of_nat (S j))))
           s.
Proof.
intros Ht.
assert (Hfl : (1 <= Qfloor (LoanContext.getEffTerm baseContext))%Z).
{ apply (loop_test_floor 1). apply Qle_bool_true. exact Ht. }
destruct (legacy_loop_shape baseContext
            (S (Z.to_nat (Qfloor (LoanContext.getEffTerm baseContext)))) [] None)
  as (l & Hl & Hlen & Hchain).
- cbn [length]. lia.
- cbn [length]. lia.
- reflexivity.
- intros j s H. destruct j; discriminate.
- assert (Hred : exists t, legacy_reduce l = Return t).
  { unfold legacy_reduce. destruct l as [|x l]; [cbn [length] in Hlen; lia|eauto]. }
  destruct Hred as [t Hred].
  exists (mkLegacyResult l t). split.
  + unfold legacy_calculate. change (Z.of_nat (length []) + 1)%Z with 1%Z in Hl.
    rewrite Hl. cbn [bind]. rewrite Hred. reflexivity.
  + cbn [summaryList]. split; [exact Hlen|]. split; [lia|exact Hchain].
Qed.

Lemma legacy_fold_sums (rest : list LoanSummaryItem.t) :
  forall acc : LegacyTotals,
    let t := fold_left
               (fun previous current =>
                  PmtAndInterest
                    (legacy_totals_pmt previous + LoanSummaryItem.pmt current)
                    (legacy_totals_interestPaid previous
                     + LoanSummaryItem.interestPaid current))
               rest acc in
    legacy_totals_pmt t
    == legacy_totals_pmt acc + Qsum (map LoanSummaryItem.pmt rest)
    /\ legacy_totals_interestPaid t
       == legacy_totals_interestPaid acc
          + Qsum (map LoanSummaryItem.interestPaid rest).
Proof.
induction rest as [|x rest IH]; intros acc; simpl.
- split; ring.
- destruct (IH (PmtAndInterest
                  (legacy_totals_pmt acc + LoanSummaryItem.pmt x)
                  (legacy_totals_interestPaid acc + LoanSummaryItem.interestPaid x)))
    as [H1 H2].
  cbv zeta in H1, H2. rewrite H1, H2. simpl. split; ring.
Qed.

(** X14: the totals of the legacy engine are the sums of [pmt] and of
    [interestPaid] over the summary list; with a single summary item they
    are that item itself. *)
Theorem legacy_totals_are_sums (baseContext : LoanContext.t) (res : LegacyResult) :
  legacy_calculate frequency_year frequency_month pmt getOperatorContextsAt
    baseContext = Return res ->
  legacy_totals_pmt (legacy_totals res)
  == Qsum (map LoanSummaryItem.pmt (summaryList res))
  /\ legacy_totals_interestPaid (legacy_totals res)
     == Qsum (map LoanSummaryItem.interestPaid (summaryList res))
  /\ forall s, summaryList res = [s] -> legacy_totals res = TheSummaryItem s.
Proof.
unfold legacy_calculate, bind.
destruct (legacy_loop _ _ _ _ _ _ _ _ _ _) as [l| |]; try discriminate.
unfold legacy_reduce. destruct l as [|x rest]; [discriminate|].
intros [= <-]. cbn [summaryList legacy_totals].
destruct (legacy_fold_sums rest (TheSummaryItem x)) as [H1 H2].
cbv zeta in H1, H2. split; [|split].
- rewrite H1. simpl. ring.
- rewrite H2. simpl. ring.
- intros s Hs. injection Hs as -> ->. reflexivity.
Qed.

(** X15: the context the legacy engine flattens for a period is the base
    context overridden by the contexts of the period's operators, in their
    order: the configured default frequencies never show through, and
    without operators it is the base context. *)
Theorem legacy_context_is_base_overridden (baseContext : LoanContext.t) (period : Z) :
  getContextAt frequency_year frequency_month getOperatorContextsAt
    baseContext period
  = fold_left LoanContext.merge (getOperatorContextsAt period) baseContext
  /\ (getOperatorContextsAt period = [] ->
      getContextAt frequency_year frequency_month getOperatorContextsAt
        baseContext period = baseContext).
Proof.
assert (H : getContextAt frequency_year frequency_month getOperatorContextsAt
              baseContext period
            = fold_left LoanContext.merge (getOperatorContextsAt period)
                baseContext).
{ unfold getContextAt, __flattenContext. cbn [fold_left].
  f_equal. destruct baseContext. reflexivity. }
split; [exact H|]. intros Hno. rewrite H. rewrite Hno. reflexivity.
Qed.

End LegacyFacts.

(** ** The constructor of the base context *)

(** X16: the effective rate and the effective term of a base context are
    always derived from its rate, term and frequencies: values passed for
    [effInterestRate] and [effTerm] in the options are discarded, and
    normalizing a second time changes nothing. *)
Theorem derived_fields_recomputed
  (frequency_year frequency_month : Q)
  (math_effInterestRate math_effTerm : Q -> Q -> Q -> Q)
  (o : BaseContextOptions.t) (rate' term' : option Q) :
  let build := new_BaseContext frequency_year frequency_month
                 math_effInterestRate math_effTerm in
  let b := build o in
  build (BaseContextOptions.mk
           (BaseContextOptions.principal o)
           (BaseContextOptions.interestRate o)
           (BaseContextOptions.interestRateFrequency o)
           rate'
           (BaseContextOptions.term o)
           (BaseContextOptions.termFrequency o)
           term'
           (BaseContextOptions.repayment o)
           (BaseContextOptions.repaymentType o)
           (BaseContextOptions.repaymentFrequency o))
  = b
  /\ __normalizeValues math_effInterestRate math_effTerm b = b
  /\ BaseContext.effInterestRate b
     = math_effInterestRate (BaseContext.interestRate b)
         (BaseContext.interestRateFrequency b) (BaseContext.repaymentFrequency b)
  /\ BaseContext.effTerm b
     = math_effTerm (BaseContext.term b) (BaseContext.termFrequency b)
         (BaseContext.repaymentFrequency b).
Proof.
cbv zeta. repeat split.
Qed.

(** ** The further properties on the sample inputs *)

Lemma balances_chain_witness :
  exists r : CalcResult,
    calculate annuity_pmt no_operators_at sample_loan = Return r
    /\ forall (i : nat) (pa : AmortizationItem.t) (c : ContextItem.t),
         nth_error (res_amortizationList r) i = Some pa ->
         nth_error (res_contextList r) (S i) = Some c ->
         ContextItem.principal c = AmortizationItem.principalBalance pa.
Proof.
eexists. split; [vm_compute; reflexivity|].
exact (proj1 (proj2 (balances_chain annuity_pmt no_operators_at sample_loan _
                       ltac:(vm_compute; reflexivity)))).
Defined.

Lemma interest_never_negative_witness :
  exists r : CalcResult,
    calculate annuity_pmt no_operators_at sample_loan = Return r
    /\ forall (i : nat) (a : AmortizationItem.t),
         nth_error (res_amortizationList r) i = Some a ->
         0 <= AmortizationItem.interestPaid a.
Proof.
eexists. split; [vm_compute; reflexivity|].
exact (proj1 (interest_never_negative annuity_pmt no_operators_at sample_loan _
                ltac:(vm_compute; reflexivity))).
Defined.





Lemma rerun_same_result_witness :
  exists e3 : Engine,
    calculate_state annuity_pmt no_operators_at sample_loan = Return e3
    /\ calculate annuity_pmt no_operators_at e3
       = calculate annuity_pmt no_operators_at sample_loan.
Proof.
eexists. split; [vm_compute; reflexivity|].
exact (proj1 (proj2 (rerun_same_result annuity_pmt no_operators_at sample_loan) _
                ltac:(vm_compute; reflexivity))).
Defined.

Lemma entry_count_bounds_witness :
  exists r : CalcResult,
    calculate annuity_pmt lump_sum_in_period_1 sample_interest_only_loan = Return r
    /\ (1 <= length (res_amortizationList r))%nat
    /\ (length (res_amortizationList r)
        <= S (Z.to_nat (Qfloor (BaseContext.effTerm
                                  (context sample_interest_only_loan)))))%nat
    /\ length (res_contextList r) = length (res_amortizationList r)
    /\ (1 <= BaseContext.effTerm (context sample_interest_only_loan) ->
        (2 <= length (res_amortizationList r))%nat).
Proof.
eexists. split; [vm_compute; reflexivity|].
exact (entry_count_bounds annuity_pmt lump_sum_in_period_1
         sample_interest_only_loan _ ltac:(vm_compute; reflexivity)).
Defined.

Lemma interest_only_schedule_witness :
  exists r : CalcResult,
    calculate annuity_pmt no_operators_at sample_interest_only_loan = Return r
    /\ length (res_amortizationList r) = 3%nat.
Proof.
eexists. split; [vm_compute; reflexivity|].
refine (proj1 (interest_only_schedule annuity_pmt no_operators_at
                 sample_interest_only_loan _ (fun _ => eq_refl) eq_refl eq_refl
                 _ _ ltac:(vm_compute; reflexivity))).
- reflexivity.
- split; vm_compute; discriminate.
Defined.

Lemma zero_principal_stops_witness :
  exists r : CalcResult,
    calculate annuity_pmt no_operators_at sample_zero_principal = Return r
    /\ length (res_amortizationList r) = 2%nat.
Proof.
eexists. split; [vm_compute; reflexivity|].
refine (proj1 (zero_principal_stops annuity_pmt no_operators_at
                 sample_zero_principal _ (fun _ => eq_refl) eq_refl _ _ _
                 ltac:(vm_compute; reflexivity))).
- reflexivity.
- vm_compute. discriminate.
- vm_compute. discriminate.
Defined.

Lemma configured_repayment_unused_witness :
  exists r r' : CalcResult,
    calculate annuity_pmt no_operators_at sample_loan = Return r
    /\ calculate annuity_pmt no_operators_at
         (mkEngine false (base_with_repayment 500 (context sample_loan))
            (contextList sample_loan) (amortizationList sample_loan)
            (totals sample_loan))
       = Return r'
    /\ res_amortizationList r' = res_amortizationList r
    /\ res_totals r' = res_totals r
    /\ tl (res_contextList r') = tl (res_contextList r).
Proof.
eexists.
destruct (configured_repayment_unused_in_loan_mode annuity_pmt no_operators_at
            sample_loan 500 _ (fun _ => eq_refl) eq_refl
            ltac:(vm_compute; reflexivity)) as (r' & H).
exists r'. split; [vm_compute; reflexivity|exact H].
Defined.


Lemma legacy_schedule_shape_witness :
  exists res : LegacyResult,
    legacy_calculate 1 1 annuity_pmt no_legacy_operators_at sample_legacy_context
    = Return res
    /\ length (summaryList res) = 2%nat.
Proof.
destruct (legacy_schedule_shape 1 1 annuity_pmt no_legacy_operators_at
            sample_legacy_context ltac:(vm_compute; discriminate))
  as (res & Hres & Hlen & _).
exists res. split; [exact Hres|]. rewrite Hlen. reflexivity.
Defined.

Lemma legacy_totals_are_sums_witness :
  exists res : LegacyResult,
    legacy_calculate 1 1 annuity_pmt no_legacy_operators_at sample_legacy_context
    = Return res
    /\ legacy_totals_pmt (legacy_totals res)
       == Qsum (map LoanSummaryItem.pmt (summaryList res)).
Proof.
eexists. split; [vm_compute; reflexivity|].
exact (proj1 (legacy_totals_are_sums 1 1 annuity_pmt no_legacy_operators_at
                sample_legacy_context _ ltac:(vm_compute; reflexivity))).
Defined.

Lemma legacy_context_is_base_overridden_witness :
  getContextAt 1 12 no_legacy_operators_at sample_legacy_context 1
  = sample_legacy_context.
Proof.
apply (legacy_context_is_base_overridden 1 12 no_legacy_operators_at
         sample_legacy_context 1).
reflexivity.
Defined.
